(** * zip.js, [lib/zip-writer.js]: the archive writer and its entry encoder

    A shallow embedding of [ZipWriter.add], [ZipWriter.close],
    [createFileEntry], [encodeUTF8] and [getBytes], followed by the
    properties of the byte layout and of the offset bookkeeping.

    Conventions of the embedding.
    - A byte is a [Z] in [0, 256); a [Uint8Array] or an array of char codes
      is a [list Z].  Every [DataView] store writes its value reduced to the
      width of the slot, as the typed array does.
    - A JavaScript string is the list of its UTF-16 code units.
    - Lengths and positions inside a buffer are [nat]; every number that is
      stored in a field, and the running offset, is a [Z].
    - [async]/[await] is sequential composition: the calls of one writer are
      made one after the other, as the library requires. *)

From Stdlib Require Import ZArith List Bool Lia.
Import ListNotations.
Open Scope Z_scope.

(** ** Exceptions and the result of a call *)

Inductive error : Type :=
| ERR_DUPLICATED_NAME          (* new Error("File already exists.") *)
| ERR_ZIP_FILE_COMMENT         (* new Error("Zip file comment exceeds 64KB.") *)
| URIError                     (* encodeURIComponent on a lone surrogate *)
| TypeError                    (* property read on null *)
| RangeError                   (* DataView / TypedArray store out of bounds *)
| CollaboratorError (code : Z) (* raised by reader, codec or pipeline *).

Inductive Err (A : Type) : Type :=
| OK (a : A)
| Throw (e : error).
Arguments OK {A} a.
Arguments Throw {A} e.

Definition Err_bind {A B : Type} (r : Err A) (k : A -> Err B) : Err B :=
  match r with
  | OK a => k a
  | Throw e => Throw e
  end.

Notation "'try' x <- r ; k" := (Err_bind r (fun x => k))
  (at level 10, x name, r at level 100, k at level 200).

(** ** JavaScript numbers used as 32-bit integers *)

Module JS.

Definition ToInt32 (z : Z) : Z :=
  let m := z mod 2 ^ 32 in
  if m <? 2 ^ 31 then m else m - 2 ^ 32.

(** [a << b] *)
Definition shl (a b : Z) : Z :=
  ToInt32 (Z.shiftl (ToInt32 a) (b mod 32)).

(** [a | b] on two integers *)
Definition or (a b : Z) : Z :=
  ToInt32 (Z.lor (ToInt32 a) (ToInt32 b)).

(** [a | n / d]: the quotient is a fraction, [|] truncates it toward zero
    before the bits are combined. *)
Definition or_quot (a n d : Z) : Z :=
  ToInt32 (Z.lor (ToInt32 a) (ToInt32 (Z.quot n d))).

End JS.

(** ** Strings *)

Definition str := list Z.

Definition str_eq_dec : forall a b : str, {a = b} + {a <> b} :=
  list_eq_dec Z.eq_dec.

Definition str_eqb (a b : str) : bool :=
  if str_eq_dec a b then true else false.

(** WhiteSpace and LineTerminator code units, the ones [String.prototype.trim]
    strips. *)
Definition isWhiteSpace (c : Z) : bool :=
  (c =? 0x09) || (c =? 0x0A) || (c =? 0x0B) || (c =? 0x0C) || (c =? 0x0D)
  || (c =? 0x20) || (c =? 0xA0) || (c =? 0x1680)
  || ((0x2000 <=? c) && (c <=? 0x200A))
  || (c =? 0x2028) || (c =? 0x2029) || (c =? 0x202F) || (c =? 0x205F)
  || (c =? 0x3000) || (c =? 0xFEFF).

Fixpoint trimStart (s : str) : str :=
  match s with
  | [] => []
  | c :: r => if isWhiteSpace c then trimStart r else s
  end.

Definition trimEnd (s : str) : str := rev (trimStart (rev s)).

(** [s.trim()] *)
Definition trim (s : str) : str := trimEnd (trimStart s).

(** [s.charAt(i)]: the one-unit string at [i], the empty string outside. *)
Definition charAt (s : str) (i : Z) : str :=
  if i <? 0 then []
  else match nth_error s (Z.to_nat i) with
       | Some c => [c]
       | None => []
       end.

Definition slash : str := [0x2F].

Definition isHighSurrogate (c : Z) : bool := (0xD800 <=? c) && (c <=? 0xDBFF).
Definition isLowSurrogate (c : Z) : bool := (0xDC00 <=? c) && (c <=? 0xDFFF).

(** [unescape(encodeURIComponent(string))]: the string whose code units are
    the bytes of the UTF-8 form of [string].  [encodeURIComponent] throws a
    [URIError] on a surrogate that is not half of a pair. *)
Fixpoint encodeUTF8 (s : str) : Err str :=
  match s with
  | [] => OK []
  | c :: r =>
      if c <? 0x80 then
        try t <- encodeUTF8 r; OK (c :: t)
      else if c <? 0x800 then
        try t <- encodeUTF8 r;
        OK (Z.lor 0xC0 (Z.shiftr c 6) :: Z.lor 0x80 (Z.land c 0x3F) :: t)
      else if isHighSurrogate c then
        match r with
        | d :: r' =>
            if isLowSurrogate d then
              let cp := 0x10000 + (c - 0xD800) * 0x400 + (d - 0xDC00) in
              try t <- encodeUTF8 r';
              OK (Z.lor 0xF0 (Z.shiftr cp 18)
                  :: Z.lor 0x80 (Z.land (Z.shiftr cp 12) 0x3F)
                  :: Z.lor 0x80 (Z.land (Z.shiftr cp 6) 0x3F)
                  :: Z.lor 0x80 (Z.land cp 0x3F) :: t)
            else Throw URIError
        | [] => Throw URIError
        end
      else if isLowSurrogate c then Throw URIError
      else
        try t <- encodeUTF8 r;
        OK (Z.lor 0xE0 (Z.shiftr c 12)
            :: Z.lor 0x80 (Z.land (Z.shiftr c 6) 0x3F)
            :: Z.lor 0x80 (Z.land c 0x3F) :: t)
  end.

(** [getBytes(string)]: the char code of every unit, in order. *)
Definition getBytes (s : str) : list Z := map (fun c => c) s.

(** ** Typed arrays and data views *)

Definition len {A : Type} (l : list A) : Z := Z.of_nat (length l).

(** [new Uint8Array(n)] *)
Definition newUint8Array (n : nat) : list Z := repeat 0 n.

Fixpoint le_bytes (n : nat) (v : Z) : list Z :=
  match n with
  | O => []
  | S k => v mod 256 :: le_bytes k (v / 256)
  end.

Definition be_bytes (n : nat) (v : Z) : list Z := rev (le_bytes n v).

(** The number a little-endian field holds. *)
Fixpoint le_value (bs : list Z) : Z :=
  match bs with
  | [] => 0
  | b :: r => b + 256 * le_value r
  end.

(** [array.set(src, off)]: copies [src] over [array] from [off]; a
    [RangeError] when [src] does not fit. *)
Definition array_set (array : list Z) (src : list Z) (off : nat)
  : Err (list Z) :=
  if (off + length src <=? length array)%nat
  then OK (firstn off array ++ src ++ skipn (off + length src) array)
  else Throw RangeError.

Definition setUint8 (view : list Z) (off : nat) (v : Z) : Err (list Z) :=
  array_set view (le_bytes 1 v) off.

Definition setUint16 (view : list Z) (off : nat) (v : Z) (littleEndian : bool)
  : Err (list Z) :=
  array_set view (if littleEndian then le_bytes 2 v else be_bytes 2 v) off.

Definition setUint32 (view : list Z) (off : nat) (v : Z) (littleEndian : bool)
  : Err (list Z) :=
  array_set view (if littleEndian then le_bytes 4 v else be_bytes 4 v) off.

(** [array[i] = v] on a typed array: ignored outside the array. *)
Definition array_store (array : list Z) (i : nat) (v : Z) : list Z :=
  if (i <? length array)%nat
  then firstn i array ++ [v mod 256] ++ skipn (S i) array
  else array.

(** The bytes of [l] from [off], [n] of them. *)
Definition slice (l : list Z) (off n : nat) : list Z := firstn n (skipn off l).

(** ** The collaborators *)

(** [date.getHours()], ... of a [Date]; [getMonth] counts from 0. *)
Record Date : Type := {
  getHours : Z;
  getMinutes : Z;
  getSeconds : Z;
  getFullYear : Z;
  getMonth : Z;
  getDate : Z
}.

(** Modelled from the spec: the output sink of [data.js], which is not among
    the sources.  [init()] is idempotent, [writeUint8Array(bytes)] appends,
    [getData()] returns the bytes accumulated so far. *)
Record Writer : Type := {
  initialized : bool;
  data : list Z
}.

Definition newUint8ArrayWriter : Writer :=
  {| initialized := false; data := [] |}.

Definition Writer_init (w : Writer) : Writer :=
  {| initialized := true; data := data w |}.

Definition Writer_writeUint8Array (w : Writer) (bytes : list Z) : Writer :=
  {| initialized := initialized w; data := data w ++ bytes |}.

Definition Writer_getData (w : Writer) : list Z := data w.

(** The object handed to [createCodec]. *)
Record CodecOptions : Type := {
  codecType : str;
  codecLevel : option Z;
  outputPassword : option str;
  outputSigned : bool;
  outputCompressed : bool;
  outputEncrypted : bool
}.

(** What [processData] resolves to. *)
Record Result : Type := {
  resultLength : Z;
  signature : option Z
}.

(** The content source, [createCodec] of [codec.js] and [processData] of
    [processor.js] are parameters of the writer.  [processData] receives the
    sink and appends to it: here it returns the bytes it appended, together
    with its result or the error it raised after appending them. *)
Class Collaborators : Type := {
  Config : Type;
  Reader : Type;
  Codec : Type;
  Progress : Type;
  reader_init : Reader -> Err Reader;
  reader_size : Reader -> Z;
  createCodec : Config -> CodecOptions -> Err Codec;
  processData :
    Codec -> Reader -> Z -> Z -> Config -> option Progress
    -> list Z * Err Result
}.

(** ** The record of one entry *)

Module FileEntry.

Record t : Type := {
  headerArray : list Z;
  directory : bool;
  filename : list Z;
  comment : list Z;
  extraField : list Z;
  length : Z;
  offset : option Z       (* [undefined] until [add] assigns it *)
}.

Definition set_offset (e : t) (o : Z) : t :=
  {| headerArray := headerArray e; directory := directory e;
     filename := filename e; comment := comment e;
     extraField := extraField e; length := length e; offset := Some o |}.

End FileEntry.

(** ** [Map] keyed by strings, in insertion order *)

Definition Map (V : Type) : Type := list (str * V).

Fixpoint Map_has {V : Type} (m : Map V) (k : str) : bool :=
  match m with
  | [] => false
  | (k', _) :: r => if str_eq_dec k' k then true else Map_has r k
  end.

(** [m.set(k, v)]: a present key keeps its place, a new key goes last. *)
Fixpoint Map_set {V : Type} (m : Map V) (k : str) (v : V) : Map V :=
  match m with
  | [] => [(k, v)]
  | (k', v') :: r =>
      if str_eq_dec k' k then (k', v) :: r else (k', v') :: Map_set r k v
  end.

Definition Map_size {V : Type} (m : Map V) : Z := len m.

Definition Map_keys {V : Type} (m : Map V) : list str := map fst m.

(** ** State and exceptions threaded through the calls *)

Definition M (S A : Type) : Type := S -> S * Err A.

Definition ret {S A : Type} (a : A) : M S A := fun s => (s, OK a).

Definition bind {S A B : Type} (m : M S A) (k : A -> M S B) : M S B :=
  fun s =>
    match m s with
    | (s', OK a) => k a s'
    | (s', Throw e) => (s', Throw e)
    end.

Definition lift {S A : Type} (r : Err A) : M S A := fun s => (s, r).

Notation "x <- m ;; k" := (bind m (fun x => k))
  (at level 61, m at next level, right associativity).
Notation "' pat <- m ;; k" :=
  (bind m (fun x => match x with pat => k end))
  (at level 61, pat pattern, m at next level, right associativity).

(** [await writer.writeUint8Array(bytes)] *)
Definition writeUint8Array (bytes : list Z) : M Writer unit :=
  fun w => (Writer_writeUint8Array w bytes, OK tt).

(** The AES extra field of an encrypted entry. *)
Definition AES_EXTRA_FIELD : list Z :=
  [0x01; 0x99; 0x07; 0x00; 0x02; 0x00; 0x41; 0x45; 0x03; 0x00; 0x00].

Definition DEFLATE : str := [100; 101; 102; 108; 97; 116; 101].

(** ** The writer *)

Section ZipWriter.

Context {C : Collaborators}.

(** The [options] of [add].  An absent field is [None]; [version] and
    [level] are numbers, [password] and [comment] strings, [extraField] a
    byte array. *)
Record Options : Type := {
  bufferedWrite : bool;
  directory : bool;
  password : option str;
  level : option Z;
  comment : option str;
  extraField : option (list Z);
  lastModDate : option Date;
  version : option Z;
  onprogress : option Progress
}.

Record ZipWriter : Type := {
  writer : Writer;
  config : Config;
  files : Map (option FileEntry.t);   (* [null] while an entry is encoded *)
  offset : Z
}.

(** [new ZipWriter(writer, config)] *)
Definition newZipWriter (w : Writer) (cfg : Config) : ZipWriter :=
  {| writer := w; config := cfg; files := []; offset := 0 |}.

Definition set_writer (this : ZipWriter) (w : Writer) : ZipWriter :=
  {| writer := w; config := config this; files := files this;
     offset := offset this |}.

Definition set_files (this : ZipWriter) (m : Map (option FileEntry.t))
  : ZipWriter :=
  {| writer := writer this; config := config this; files := m;
     offset := offset this |}.

Definition set_offset (this : ZipWriter) (o : Z) : ZipWriter :=
  {| writer := writer this; config := config this; files := files this;
     offset := o |}.

(** [options.password && options.password.length && options.password],
    as a truth value. *)
Definition hasPassword (options : Options) : bool :=
  match password options with
  | Some (_ :: _) => true
  | _ => false
  end.

(** [options.level !== 0 && !options.directory] *)
Definition isCompressed (options : Options) : bool :=
  negb (match level options with Some l => l =? 0 | None => false end)
  && negb (directory options).

(** The value stored at 6: the packed time of day. *)
Definition dosTime (date : Date) : Z :=
  JS.or_quot (JS.shl (JS.or (JS.shl (getHours date) 6) (getMinutes date)) 5)
             (getSeconds date) 2.

(** The value stored at 8: the packed day. *)
Definition dosDate (date : Date) : Z :=
  JS.or (JS.shl (JS.or (JS.shl (getFullYear date - 1980) 4)
                       (getMonth date + 1)) 5)
        (getDate date).

(** Lines 133-148: the version, flag and method bytes, and the extra field
    the entry keeps. *)
Definition headerStart (options : Options) (headerArray extraField0 : list Z)
  : Err (list Z * list Z) :=
  if hasPassword options then
    try h <- setUint32 headerArray 0 0x33000900 false;
    try h <- setUint8 h 4 0x63;
    let e := AES_EXTRA_FIELD in
    let e := if isCompressed options then array_store e 9 0x08 else e in
    OK (h, e)
  else
    try h <- setUint32 headerArray 0 0x14000808 false;
    try h <- match version options with
             | Some v => if v =? 0 then OK h else setUint8 h 0 v
             | None => OK h
             end;
    try h <- if isCompressed options then setUint16 h 4 0x0800 false
             else OK h;
    OK (h, extraField0).

(** Lines 162-173: the content goes through the pipeline, which appends
    to the sink. *)
Definition processContent (reader : option Reader) (cfg : Config)
    (options : Options) : M Writer (option (Reader * Result)) :=
  match reader with
  | None => ret None
  | Some r =>
      r <- lift (reader_init r) ;;
      codec <- lift (createCodec cfg
                 {| codecType := DEFLATE;
                    codecLevel := level options;
                    outputPassword := password options;
                    outputSigned := negb (hasPassword options);
                    outputCompressed := isCompressed options;
                    outputEncrypted := hasPassword options |}) ;;
      result <- (fun w : Writer =>
                   let p := processData codec r 0 (reader_size r) cfg
                              (onprogress options) in
                   (Writer_writeUint8Array w (fst p), snd p)) ;;
      ret (Some (r, result))
  end.

(** Lines 177-186: checksum and sizes into header and footer. *)
Definition patchSizes (encrypted : bool) (processed : option (Reader * Result))
    (headerArray footerArray : list Z) : Err (list Z * list Z) :=
  match processed with
  | None => OK (headerArray, footerArray)
  | Some (r, result) =>
      try hf <- match signature result with
                | Some sig =>
                    if negb encrypted then
                      try h <- setUint32 headerArray 10 sig true;
                      try f <- setUint32 footerArray 4 sig true;
                      OK (h, f)
                    else OK (headerArray, footerArray)
                | None => OK (headerArray, footerArray)
                end;
      try h <- setUint32 (fst hf) 14 (resultLength result) true;
      try f <- setUint32 (snd hf) 8 (resultLength result) true;
      try h <- setUint32 h 18 (reader_size r) true;
      try f <- setUint32 f 12 (reader_size r) true;
      OK (h, f)
  end.

(** [createFileEntry(name, reader, writer, config, options)]; [writer] is
    the state of the computation, [now] what [new Date()] gives. *)
Definition createFileEntry (now : Date) (name : str) (reader : option Reader)
    (cfg : Config) (options : Options) : M Writer FileEntry.t :=
  s <- lift (encodeUTF8 name) ;;
  let filename := getBytes s in
  let date := match lastModDate options with Some d => d | None => now end in
  let headerArray := newUint8Array 26 in
  c <- lift (encodeUTF8 (match comment options with
                         | Some c => c
                         | None => []
                         end)) ;;
  let comment := getBytes c in
  let extraField0 := match extraField options with
                     | Some e => e
                     | None => newUint8Array 0
                     end in
  '(headerArray, extraField) <-
     lift (headerStart options headerArray extraField0) ;;
  headerArray <- lift (setUint16 headerArray 6 (dosTime date) true) ;;
  headerArray <- lift (setUint16 headerArray 8 (dosDate date) true) ;;
  headerArray <- lift (setUint16 headerArray 22 (len filename) true) ;;
  let extraFieldLength := length extraField in
  headerArray <-
    lift (setUint16 headerArray 24 (Z.of_nat extraFieldLength) true) ;;
  let fileDataArray :=
    newUint8Array (30 + length filename + extraFieldLength) in
  fileDataArray <- lift (setUint32 fileDataArray 0 0x504b0304 false) ;;
  fileDataArray <- lift (array_set fileDataArray headerArray 4) ;;
  fileDataArray <- lift (array_set fileDataArray filename 30) ;;
  fileDataArray <-
    lift (array_set fileDataArray extraField (30 + length filename)) ;;
  _ <- writeUint8Array fileDataArray ;;
  processed <- processContent reader cfg options ;;
  let footerArray := newUint8Array 16 in
  footerArray <- lift (setUint32 footerArray 0 0x504b0708 false) ;;
  '(headerArray, footerArray) <-
     lift (patchSizes (hasPassword options) processed
             headerArray footerArray) ;;
  _ <- writeUint8Array footerArray ;;
  ret {| FileEntry.headerArray := headerArray;
         FileEntry.directory := directory options;
         FileEntry.filename := filename;
         FileEntry.comment := comment;
         FileEntry.extraField := extraField;
         FileEntry.length :=
           len fileDataArray
           + match processed with
             | Some (_, result) => resultLength result
             | None => 0
             end
           + len footerArray;
         FileEntry.offset := None |}.

(** Lines 58-61: the key under which [add] files the entry. *)
Definition entryName (name : str) (options : Options) : str :=
  let name := trim name in
  if directory options
     && negb (str_eqb (charAt name (len name - 1)) slash)
  then name ++ slash
  else name.

(** [add(name, reader, options)] *)
Definition add (now : Date) (name : str) (reader : option Reader)
    (options : Options) : M ZipWriter unit :=
  fun this =>
    let this :=
      if bufferedWrite options then this
      else if initialized (writer this) then this
           else set_writer this (Writer_init (writer this)) in
    let sink :=
      if bufferedWrite options then Writer_init newUint8ArrayWriter
      else writer this in
    let name := entryName name options in
    if Map_has (files this) name then (this, Throw ERR_DUPLICATED_NAME)
    else
      let this := set_files this (Map_set (files this) name None) in
      let (sink, r) :=
        createFileEntry now name reader (config this) options sink in
      (* without [bufferedWrite] the sink is [this.writer] itself *)
      let this := if bufferedWrite options then this
                  else set_writer this sink in
      match r with
      | Throw e => (this, Throw e)
      | OK fileEntry =>
          let this :=
            set_files this (Map_set (files this) name (Some fileEntry)) in
          let this :=
            if bufferedWrite options
            then set_writer this
                   (Writer_writeUint8Array (writer this) (Writer_getData sink))
            else this in
          (* [fileEntry] is the object the map holds *)
          let fileEntry := FileEntry.set_offset fileEntry (offset this) in
          let this :=
            set_files this (Map_set (files this) name (Some fileEntry)) in
          let this :=
            set_offset this (offset this + FileEntry.length fileEntry) in
          (this, OK tt)
      end.

(** Lines 76-79: the size of the central directory; reading a field of a
    [null] entry throws. *)
Fixpoint directoryLength (fs : Map (option FileEntry.t)) (acc : nat)
  : Err nat :=
  match fs with
  | [] => OK acc
  | (_, None) :: _ => Throw TypeError
  | (_, Some file) :: r =>
      directoryLength r
        (acc + (46 + length (FileEntry.filename file)
                + length (FileEntry.comment file)
                + length (FileEntry.extraField file)))%nat
  end.

(** Lines 83-94: the body of the second loop, for one entry, at [off]. *)
Definition writeRecord (file : FileEntry.t) (off : nat) (array : list Z)
  : Err (nat * list Z) :=
  let fl := length (FileEntry.filename file) in
  let el := length (FileEntry.extraField file) in
  let cl := length (FileEntry.comment file) in
  try a <- setUint32 array off 0x504b0102 false;
  try a <- setUint16 a (off + 4) 0x1400 false;
  try a <- array_set a (FileEntry.headerArray file) (off + 6);
  try a <- setUint16 a (off + 32) (Z.of_nat cl) true;
  try a <- if FileEntry.directory file then setUint8 a (off + 38) 0x10
           else OK a;
  try a <- setUint32 a (off + 42)
             (match FileEntry.offset file with Some o => o | None => 0 end)
             true;
  try a <- array_set a (FileEntry.filename file) (off + 46);
  try a <- array_set a (FileEntry.extraField file) (off + 46 + fl);
  try a <- array_set a (FileEntry.comment file) (off + 46 + fl + el);
  OK ((off + (46 + fl + cl + el))%nat, a).

Fixpoint writeRecords (fs : Map (option FileEntry.t)) (off : nat)
    (array : list Z) : Err (nat * list Z) :=
  match fs with
  | [] => OK (off, array)
  | (_, None) :: _ => Throw TypeError
  | (_, Some file) :: r =>
      try p <- writeRecord file off array;
      writeRecords r (fst p) (snd p)
  end.

(** Lines 76-107: the central directory and the trailer, in one array. *)
Definition directoryData (this : ZipWriter) (comment : option (list Z))
  : Err (list Z) :=
  try directoryDataLength <- directoryLength (files this) 0;
  let directoryDataArray := newUint8Array (directoryDataLength + 22) in
  try p <- writeRecords (files this) 0 directoryDataArray;
  let off := fst p in
  try a <- setUint32 (snd p) off 0x504b0506 false;
  try a <- setUint16 a (off + 8) (Map_size (files this)) true;
  try a <- setUint16 a (off + 10) (Map_size (files this)) true;
  try a <- setUint32 a (off + 12) (Z.of_nat directoryDataLength) true;
  try a <- setUint32 a (off + 16) (offset this) true;
  match comment with
  | Some ((_ :: _) as c) =>
      if len c <=? 65536 then setUint16 a (off + 20) (len c) true
      else Throw ERR_ZIP_FILE_COMMENT
  | _ => OK a
  end.

(** [close(comment)]; the result is [this.writer.getData()]. *)
Definition close (comment : option (list Z)) : M ZipWriter (list Z) :=
  directoryDataArray <- (fun this => (this, directoryData this comment)) ;;
  _ <- (fun this =>
          (set_writer this
             (Writer_writeUint8Array (writer this) directoryDataArray),
           OK tt)) ;;
  _ <- (fun this =>
          match comment with
          | Some ((_ :: _) as c) =>
              (set_writer this (Writer_writeUint8Array (writer this) c),
               OK tt)
          | _ => (this, OK tt)
          end) ;;
  fun this => (this, OK (Writer_getData (writer this))).

(** A sequence of [add] calls, each awaited before the next; it stops at
    the first call that throws. *)
Record AddCall : Type := {
  callTime : Date;
  callName : str;
  callReader : option Reader;
  callOptions : Options
}.

Fixpoint addAll (calls : list AddCall) : M ZipWriter unit :=
  match calls with
  | [] => ret tt
  | c :: r =>
      _ <- add (callTime c) (callName c) (callReader c) (callOptions c) ;;
      addAll r
  end.

End ZipWriter.

Arguments Options {C}.
Arguments ZipWriter {C}.
Arguments AddCall {C}.

(** ** The layout of what is written

    The blocks below name the byte sequences the writer is shown to produce;
    a field that the code leaves untouched in a fresh array holds zeros, which
    is also what storing 0 into it gives. *)

Section Layout.

Context {C : Collaborators}.

(** Bytes 0-5 of the header: version, flags, method. *)
Definition versionBytes (options : Options) : list Z :=
  if hasPassword options then [0x33; 0x00; 0x09; 0x00; 0x63; 0x00]
  else
    [match version options with
     | Some v => if v =? 0 then 0x14 else v mod 256
     | None => 0x14
     end; 0x00; 0x08; 0x08]
    ++ (if isCompressed options then [0x08; 0x00] else [0x00; 0x00]).

(** The 26 bytes of the header. *)
Definition headerBytes (options : Options) (date : Date)
    (crc csize usize : Z) (fl el : nat) : list Z :=
  versionBytes options
  ++ le_bytes 2 (dosTime date) ++ le_bytes 2 (dosDate date)
  ++ le_bytes 4 crc ++ le_bytes 4 csize ++ le_bytes 4 usize
  ++ le_bytes 2 (Z.of_nat fl) ++ le_bytes 2 (Z.of_nat el).

(** The extra field the entry ends up with. *)
Definition entryExtraField (options : Options) : list Z :=
  if hasPassword options then
    if isCompressed options
    then [0x01; 0x99; 0x07; 0x00; 0x02; 0x00; 0x41; 0x45; 0x03; 0x08; 0x00]
    else AES_EXTRA_FIELD
  else match extraField options with
       | Some e => e
       | None => []
       end.

(** [options.lastModDate || new Date()] *)
Definition entryDate (now : Date) (options : Options) : Date :=
  match lastModDate options with
  | Some d => d
  | None => now
  end.

(** [options.comment || ""] *)
Definition entryComment (options : Options) : str :=
  match comment options with
  | Some c => c
  | None => []
  end.

(** The block written before the content. *)
Definition localHeader (now : Date) (options : Options) (filename : list Z)
  : list Z :=
  [0x50; 0x4b; 0x03; 0x04]
  ++ headerBytes options (entryDate now options) 0 0 0
       (length filename) (length (entryExtraField options))
  ++ filename ++ entryExtraField options.

(** What the three fields after the signature hold, in header and footer. *)
Definition checksumField (options : Options)
    (processed : option (Reader * Result)) : Z :=
  match processed with
  | Some (_, result) =>
      if hasPassword options then 0
      else match signature result with
           | Some sig => sig
           | None => 0
           end
  | None => 0
  end.

Definition compressedSizeField (processed : option (Reader * Result)) : Z :=
  match processed with
  | Some (_, result) => resultLength result
  | None => 0
  end.

Definition sizeField (processed : option (Reader * Result)) : Z :=
  match processed with
  | Some (r, _) => reader_size r
  | None => 0
  end.

(** The 16 bytes written after the content. *)
Definition footerBytes (options : Options)
    (processed : option (Reader * Result)) : list Z :=
  [0x50; 0x4b; 0x07; 0x08]
  ++ le_bytes 4 (checksumField options processed)
  ++ le_bytes 4 (compressedSizeField processed)
  ++ le_bytes 4 (sizeField processed).

(** The record a successful [createFileEntry] returns. *)
Definition encodedEntry (now : Date) (options : Options)
    (filename comment : list Z) (processed : option (Reader * Result))
  : FileEntry.t :=
  {| FileEntry.headerArray :=
       headerBytes options (entryDate now options)
         (checksumField options processed)
         (compressedSizeField processed) (sizeField processed)
         (length filename) (length (entryExtraField options));
     FileEntry.directory := directory options;
     FileEntry.filename := filename;
     FileEntry.comment := comment;
     FileEntry.extraField := entryExtraField options;
     FileEntry.length :=
       Z.of_nat (30 + length filename + length (entryExtraField options))
       + compressedSizeField processed + 16;
     FileEntry.offset := None |}.

(** One record of the central directory. *)
Definition centralRecord (file : FileEntry.t) : list Z :=
  [0x50; 0x4b; 0x01; 0x02] ++ [0x14; 0x00]
  ++ FileEntry.headerArray file
  ++ le_bytes 2 (len (FileEntry.comment file))
  ++ [0; 0; 0; 0]
  ++ [if FileEntry.directory file then 0x10 else 0; 0; 0; 0]
  ++ le_bytes 4 (match FileEntry.offset file with
                 | Some o => o
                 | None => 0
                 end)
  ++ FileEntry.filename file
  ++ FileEntry.extraField file
  ++ FileEntry.comment file.

(** The trailer. *)
Definition endOfCentralDirectory (count : Z) (directoryLength : nat)
    (directoryOffset commentLength : Z) : list Z :=
  [0x50; 0x4b; 0x05; 0x06] ++ [0; 0; 0; 0]
  ++ le_bytes 2 count ++ le_bytes 2 count
  ++ le_bytes 4 (Z.of_nat directoryLength)
  ++ le_bytes 4 directoryOffset
  ++ le_bytes 2 commentLength.

(** The completed entries of a map, in order. *)
Fixpoint entries (fs : Map (option FileEntry.t)) : list FileEntry.t :=
  match fs with
  | [] => []
  | (_, Some file) :: r => file :: entries r
  | (_, None) :: r => entries r
  end.

(** Each entry starts where the one before it ends, from [start] up to
    [final]. *)
Fixpoint chained (start : Z) (es : list FileEntry.t) (final : Z) : Prop :=
  match es with
  | [] => start = final
  | e :: r =>
      FileEntry.offset e = Some start
      /\ chained (start + FileEntry.length e) r final
  end.

(** The key of the entry a call adds. *)
Definition callKey (c : AddCall) : str :=
  entryName (callName c) (callOptions c).

(** No entry is [null], and every header has its 26 bytes. *)
Definition complete (fs : Map (option FileEntry.t)) : Prop :=
  Forall (fun kv => exists file, snd kv = Some file
                    /\ length (FileEntry.headerArray file) = 26%nat) fs.

(** What the pipeline appends to a sink, and what it resolves to or
    throws; [processContent_sink] shows that neither depends on the sink. *)
Definition contentBytes (reader : option Reader) (cfg : Config)
    (options : Options) : list Z :=
  data (fst (processContent reader cfg options newUint8ArrayWriter)).

Definition contentResult (reader : option Reader) (cfg : Config)
    (options : Options) : Err (option (Reader * Result)) :=
  snd (processContent reader cfg options newUint8ArrayWriter).

(** The bytes one entry puts on the sink, and the record or the error. *)
Definition entryBytes now name reader cfg options : list Z :=
  data (fst (createFileEntry now name reader cfg options
               newUint8ArrayWriter)).

Definition entryResult now name reader cfg options : Err FileEntry.t :=
  snd (createFileEntry now name reader cfg options newUint8ArrayWriter).

(** Lines 48-57 of [add], on the writer's own state. *)
Definition prepared (options : Options) (this : ZipWriter) : ZipWriter :=
  if bufferedWrite options then this
  else if initialized (writer this) then this
       else set_writer this (Writer_init (writer this)).

(** Whether [close] accepts the comment, and the length it declares. *)
Definition commentLength (comment : option (list Z)) : Err Z :=
  match comment with
  | Some ((_ :: _) as c) =>
      if len c <=? 65536 then OK (len c) else Throw ERR_ZIP_FILE_COMMENT
  | _ => OK 0
  end.

(** What holds of a writer between two calls that returned. *)
Definition consistent (this : ZipWriter) : Prop :=
  (complete (files this) /\ NoDup (Map_keys (files this)))
  /\ chained 0 (entries (files this)) (offset this).

(** The bytes [close] writes after the directory. *)
Definition commentBytes (comment : option (list Z)) : list Z :=
  match comment with
  | Some c => c
  | None => []
  end.

(** The array [close] builds for an archive whose entries are all
    encoded, given the length it declares for the comment. *)
Definition directoryBytes (this : ZipWriter) (cl : Z) : list Z :=
  flat_map centralRecord (entries (files this))
  ++ endOfCentralDirectory (Map_size (files this))
       (length (flat_map centralRecord (entries (files this))))
       (offset this) cl.

(** Where the trailer starts in that array. *)
Definition recordsLength (this : ZipWriter) : nat :=
  length (flat_map centralRecord (entries (files this))).

(** The same options with [bufferedWrite] set to [b]. *)
Definition withBufferedWrite (b : bool) (options : Options) : Options :=
  {| bufferedWrite := b; directory := directory options;
     password := password options; level := level options;
     comment := comment options; extraField := extraField options;
     lastModDate := lastModDate options; version := version options;
     onprogress := onprogress options |}.

(** The same options with [extraField] replaced. *)
Definition withExtraField (e : option (list Z)) (options : Options)
  : Options :=
  {| bufferedWrite := bufferedWrite options; directory := directory options;
     password := password options; level := level options;
     comment := comment options; extraField := e;
     lastModDate := lastModDate options; version := version options;
     onprogress := onprogress options |}.

End Layout.

(** ** The packing of time and day, as documented *)

(** The packing as the format documents it, on unbounded integers. *)
Definition specTime (date : Date) : Z :=
  Z.lor (Z.shiftl (Z.lor (Z.shiftl (getHours date) 6) (getMinutes date)) 5)
        (getSeconds date / 2).

Definition specDate (date : Date) : Z :=
  Z.lor (Z.shiftl (Z.lor (Z.shiftl (getFullYear date - 1980) 4)
                         (getMonth date + 1)) 5)
        (getDate date).

(** What the getters of a [Date] that holds a time value can return. *)
Definition validDate (date : Date) : Prop :=
  0 <= getHours date <= 23 /\ 0 <= getMinutes date <= 59
  /\ 0 <= getSeconds date <= 59 /\ 0 <= getMonth date <= 11
  /\ 1 <= getDate date <= 31
  /\ -271821 <= getFullYear date <= 275760.

(** ** A pipeline to run the writer on

    A content source that is either a byte array, stored as it is, or a
    source whose processing fails after some bytes went out. *)

Inductive Source : Type :=
| Content (bytes : list Z)
| Broken (written : list Z) (code : Z).

Definition storeResult (codec : CodecOptions) (bytes : list Z) : Result :=
  {| resultLength := len bytes;
     signature := if outputSigned codec
                  then Some (fold_left Z.add bytes 0)
                  else None |}.

#[export] Instance StoreOnly : Collaborators := {
  Config := unit;
  Reader := Source;
  Codec := CodecOptions;
  Progress := unit;
  reader_init := fun r => OK r;
  reader_size := fun r => match r with
                          | Content bytes => len bytes
                          | Broken _ _ => 0
                          end;
  createCodec := fun _ o => OK o;
  processData := fun codec r _ _ _ _ =>
    match r with
    | Content bytes => (bytes, OK (storeResult codec bytes))
    | Broken written code => (written, Throw (CollaboratorError code))
    end
}.

(** The configuration of that pipeline, and options with nothing set. *)
Definition noConfig : @Config StoreOnly := tt.

Definition plainOptions : Options (C := StoreOnly) :=
  {| bufferedWrite := false; directory := false; password := None;
     level := None; comment := None; extraField := None;
     lastModDate := None; version := None; onprogress := None |}.

(** 2023-06-15 10:30:45 *)
Definition june15 : Date :=
  {| getHours := 10; getMinutes := 30; getSeconds := 45;
     getFullYear := 2023; getMonth := 5; getDate := 15 |}.

(** "docs", "a.txt" and "secret" *)
Definition docs : str := [100; 111; 99; 115].
Definition a_txt : str := [97; 46; 116; 120; 116].
Definition secret : str := [115; 101; 99; 114; 101; 116].

(** [new ZipWriter(new Uint8ArrayWriter())] *)
Definition emptyArchive : ZipWriter (C := StoreOnly) :=
  newZipWriter newUint8ArrayWriter noConfig.

(** The archive after [add("a.txt", content)]. *)
Definition archiveWithFile : ZipWriter :=
  fst (add june15 a_txt (Some (Content [1; 2; 3])) plainOptions emptyArchive).

(** Two files, the second with a password, and what the archive is after
    both are added. *)
Definition twoCalls : list AddCall :=
  [ {| callTime := june15; callName := a_txt;
       callReader := Some (Content [1; 2; 3]);
       callOptions := plainOptions |};
    {| callTime := june15; callName := secret;
       callReader := Some (Content [4; 5]);
       callOptions :=
         {| bufferedWrite := true; directory := false;
            password := Some secret; level := Some 0; comment := None;
            extraField := Some [9; 9]; lastModDate := None;
            version := None; onprogress := None |} |} ].

Definition twoFiles : ZipWriter := fst (addAll twoCalls emptyArchive).

(** [add("a.txt")] with no content, on 2023-06-15 at 10:30:45. *)
Definition juneEntry : FileEntry.t :=
  {| FileEntry.headerArray :=
       [20; 0; 8; 8; 8; 0; 214; 83; 207; 86; 0; 0; 0; 0; 0; 0; 0; 0; 0; 0;
        0; 0; 5; 0; 0; 0];
     FileEntry.directory := false;
     FileEntry.filename := a_txt;
     FileEntry.comment := [];
     FileEntry.extraField := [];
     FileEntry.length := 51;
     FileEntry.offset := None |}.

(** [{ password: "secret", extraField: [9, 9] }] and [{ directory: true }] *)
Definition secretOptions : Options (C := StoreOnly) :=
  {| bufferedWrite := false; directory := false; password := Some secret;
     level := None; comment := None; extraField := Some [9; 9];
     lastModDate := None; version := None; onprogress := None |}.

Definition directoryOptions : Options (C := StoreOnly) :=
  {| bufferedWrite := false; directory := true; password := None;
     level := None; comment := None; extraField := None;
     lastModDate := None; version := None; onprogress := None |}.

(** [add("a.txt", content)] with the password "secret". *)
Definition secretEntry : FileEntry.t :=
  {| FileEntry.headerArray :=
       [51; 0; 9; 0; 99; 0; 214; 83; 207; 86; 0; 0; 0; 0; 3; 0; 0; 0; 3; 0;
        0; 0; 5; 0; 11; 0];
     FileEntry.directory := false;
     FileEntry.filename := a_txt;
     FileEntry.comment := [];
     FileEntry.extraField := [1; 153; 7; 0; 2; 0; 65; 69; 3; 8; 0];
     FileEntry.length := 65;
     FileEntry.offset := None |}.

(** [{ password: "secret", level: 0, extraField: [9, 9] }] and
    [{ password: "secret", directory: true, extraField: [9, 9] }] *)
Definition storedSecretOptions : Options (C := StoreOnly) :=
  {| bufferedWrite := false; directory := false; password := Some secret;
     level := Some 0; comment := None; extraField := Some [9; 9];
     lastModDate := None; version := None; onprogress := None |}.

Definition secretDirectoryOptions : Options (C := StoreOnly) :=
  {| bufferedWrite := false; directory := true; password := Some secret;
     level := None; comment := None; extraField := Some [9; 9];
     lastModDate := None; version := None; onprogress := None |}.

(** [add("a.txt", content)] with the password "secret" and level 0. *)
Definition storedSecretEntry : FileEntry.t :=
  {| FileEntry.headerArray :=
       [51; 0; 9; 0; 99; 0; 214; 83; 207; 86; 0; 0; 0; 0; 3; 0; 0; 0; 3; 0;
        0; 0; 5; 0; 11; 0];
     FileEntry.directory := false;
     FileEntry.filename := a_txt;
     FileEntry.comment := [];
     FileEntry.extraField := [1; 153; 7; 0; 2; 0; 65; 69; 3; 0; 0];
     FileEntry.length := 65;
     FileEntry.offset := None |}.

(** 2108-01-01 00:00:00 and 1970-01-01 00:00:00, the first day after and
    a day before the years that seven bits counted from 1980 can hold. *)
Definition jan2108 : Date :=
  {| getHours := 0; getMinutes := 0; getSeconds := 0;
     getFullYear := 2108; getMonth := 0; getDate := 1 |}.

Definition jan1970 : Date :=
  {| getHours := 0; getMinutes := 0; getSeconds := 0;
     getFullYear := 1970; getMonth := 0; getDate := 1 |}.

(** ** Archives for the further properties *)

(** The archive after an [add] whose pipeline threw. *)
Definition failedArchive : ZipWriter :=
  fst (add june15 a_txt (Some (Broken [] 1)) plainOptions emptyArchive).

(** [{ bufferedWrite: true }] *)
Definition bufferedOptions : Options (C := StoreOnly) :=
  withBufferedWrite true plainOptions.

(** ** Pipelines that report what they write *)

(** The length [processData] resolves to is the number of bytes it appended
    to the sink. *)
Definition reportsWhatItWrites {C : Collaborators} : Prop :=
  forall codec r off size cfg progress result,
    snd (processData codec r off size cfg progress) = OK result ->
    resultLength result
    = len (fst (processData codec r off size cfg progress)).

(** The entry's header block is on the sink [start + offset] bytes in:
    there is its signature, and 30 bytes further its file name. *)
Definition headerAt (bytes : list Z) (start : nat) (e : FileEntry.t) : Prop :=
  exists p : nat,
    FileEntry.offset e = Some (Z.of_nat p)
    /\ slice bytes (start + p) 4 = [0x50; 0x4b; 0x03; 0x04]
    /\ slice bytes (start + p + 30) (length (FileEntry.filename e))
       = FileEntry.filename e.

(** What holds of writer and sink between calls that returned, for a
    writer made on a sink that held [start] bytes. *)
Definition tracked {C : Collaborators} (start : nat) (this : ZipWriter)
  : Prop :=
  exists n : nat,
    offset this = Z.of_nat n
    /\ length (data (writer this)) = (start + n)%nat
    /\ Forall (fun e =>
                 headerAt (data (writer this)) start e
                 /\ exists p : nat,
                      FileEntry.offset e = Some (Z.of_nat p)
                      /\ (p + 30 + length (FileEntry.filename e) <= n)%nat)
         (entries (files this)).

(** ** Reading the header back *)

(** The numbers the header holds at 6 and at 8. *)
Definition timeField (fe : FileEntry.t) : Z :=
  le_value (slice (FileEntry.headerArray fe) 6 2).

Definition dateField (fe : FileEntry.t) : Z :=
  le_value (slice (FileEntry.headerArray fe) 8 2).

(** ** Options with one field replaced, lengths of records *)

(** The same options with [version] replaced. *)
Definition withVersion {C : Collaborators} (v : option Z) (options : Options)
  : Options :=
  {| bufferedWrite := bufferedWrite options; directory := directory options;
     password := password options; level := level options;
     comment := comment options; extraField := extraField options;
     lastModDate := lastModDate options; version := v;
     onprogress := onprogress options |}.

(** The length of the record of an entry, as [close] adds it up. *)
Definition recordLength (file : FileEntry.t) : nat :=
  46 + length (FileEntry.filename file) + length (FileEntry.comment file)
  + length (FileEntry.extraField file).

(** An archive comment of two bytes. *)
Definition shortComment : option (list Z) := Some [1; 2].

(** A name with a lone surrogate. *)
Definition brokenName : str := [0x61; 0xDC00; 0x62].

(** ** Code units and bytes *)

Definition isCodeUnit (c : Z) : Prop := 0 <= c < 0x10000.

Definition isByte (b : Z) : Prop := 0 <= b < 256.

Definition isSurrogate (c : Z) : bool :=
  isHighSurrogate c || isLowSurrogate c.

(** "é€" followed by U+1F600, which takes a pair of surrogates. *)
Definition accented : str := [0xE9; 0x20AC; 0xD83D; 0xDE00].

(** Its UTF-8 form. *)
Definition accentedBytes : list Z :=
  [0xC3; 0xA9; 0xE2; 0x82; 0xAC; 0xF0; 0x9F; 0x98; 0x80].

(** * Properties *)

(** ** Buffers *)

Lemma array_set_fits (a src : list Z) (off : nat) :
  (off + length src <= length a)%nat ->
  array_set a src off
  = OK (firstn off a ++ src ++ skipn (off + length src) a).
Proof.
  intros H. unfold array_set.
  destruct (Nat.leb_spec (off + length src) (length a)); [reflexivity | lia].
Qed.

Lemma array_set_segment (pre mid post src : list Z) (off : nat) :
  off = length pre -> length src = length mid ->
  array_set (pre ++ mid ++ post) src off = OK (pre ++ src ++ post).
Proof.
  intros -> Hs. rewrite array_set_fits.
  - rewrite firstn_app, firstn_all, Nat.sub_diag. simpl firstn.
    rewrite app_nil_r, skipn_app.
    rewrite (skipn_all2 pre) by lia.
    replace (length pre + length src - length pre)%nat
      with (length mid) by lia.
    rewrite skipn_app, skipn_all, Nat.sub_diag. reflexivity.
  - rewrite !length_app. lia.
Qed.

Lemma array_set_zeros (pre src : list Z) (n off : nat) :
  (length pre <= off)%nat -> (off + length src <= length pre + n)%nat ->
  array_set (pre ++ repeat 0 n) src off
  = OK ((pre ++ repeat 0 (off - length pre) ++ src)
        ++ repeat 0 (length pre + n - (off + length src))).
Proof.
  intros H1 H2.
  replace n with ((off - length pre)
                  + (length src + (length pre + n - (off + length src))))%nat
    at 1 by lia.
  rewrite !repeat_app, app_assoc.
  rewrite array_set_segment.
  - rewrite <- !app_assoc. reflexivity.
  - rewrite length_app, repeat_length. lia.
  - rewrite repeat_length. reflexivity.
Qed.

Lemma le_bytes_length (n : nat) (v : Z) : length (le_bytes n v) = n.
Proof.
  revert v. induction n as [|n IH]; intros v; simpl; [reflexivity|].
  now rewrite IH.
Qed.

Lemma be_bytes_length (n : nat) (v : Z) : length (be_bytes n v) = n.
Proof. unfold be_bytes. now rewrite length_rev, le_bytes_length. Qed.

Lemma le_value_bytes (n : nat) (v : Z) :
  le_value (le_bytes n v) = v mod 256 ^ Z.of_nat n.
Proof.
  revert v. induction n as [|n IH]; intros v.
  - simpl. now rewrite Z.mod_1_r.
  - cbn [le_bytes le_value]. rewrite IH.
    rewrite Nat2Z.inj_succ, Z.pow_succ_r by lia.
    rewrite Z.rem_mul_r by lia. lia.
Qed.

Lemma le_value_le_bytes_small (n : nat) (v : Z) :
  0 <= v < 256 ^ Z.of_nat n -> le_value (le_bytes n v) = v.
Proof. intros H. rewrite le_value_bytes. now apply Z.mod_small. Qed.

(** A store into the zero tail of an array, [k] bytes after what is already
    written; [m] zeros remain after it. *)
Lemma array_set_at (pre src : list Z) (n off k m : nat) :
  off = (length pre + k)%nat -> n = (k + length src + m)%nat ->
  array_set (pre ++ repeat 0 n) src off
  = OK ((pre ++ repeat 0 k ++ src) ++ repeat 0 m).
Proof.
  intros -> ->. rewrite array_set_zeros by lia.
  replace (length pre + k - length pre)%nat with k by lia.
  replace (length pre + (k + length src + m)
           - (length pre + k + length src))%nat with m by lia.
  reflexivity.
Qed.

Ltac lens :=
  repeat (rewrite length_app || rewrite repeat_length
          || rewrite le_bytes_length || rewrite be_bytes_length);
  cbn [length].

Ltac store k m :=
  unfold setUint8, setUint16, setUint32; cbv beta iota;
  match goal with
  | |- context [array_set (?pre ++ repeat 0 ?n) ?src ?off] =>
      rewrite (array_set_at pre src n off k m) by (lens; lia)
  end;
  cbv beta iota.

(** ** The entry encoder *)

Section Encoder.

Context {C : Collaborators}.

Lemma versionBytes_length (options : Options) :
  length (versionBytes options) = 6%nat.
Proof.
  unfold versionBytes.
  destruct (hasPassword options), (isCompressed options); reflexivity.
Qed.

Lemma headerBytes_length options date crc csize usize fl el :
  length (headerBytes options date crc csize usize fl el) = 26%nat.
Proof.
  unfold headerBytes.
  rewrite !length_app, versionBytes_length, !le_bytes_length. reflexivity.
Qed.

Lemma headerStart_eq (options : Options) :
  headerStart options (newUint8Array 26)
    (match extraField options with
     | Some e => e
     | None => newUint8Array 0
     end)
  = OK (versionBytes options ++ repeat 0 20, entryExtraField options).
Proof.
  unfold headerStart, versionBytes, entryExtraField.
  destruct (hasPassword options), (isCompressed options);
    try reflexivity;
    destruct (version options) as [v|]; try reflexivity;
    destruct (v =? 0), (extraField options); reflexivity.
Qed.

Lemma patchSizes_eq options date fl el processed :
  patchSizes (hasPassword options) processed
    (headerBytes options date 0 0 0 fl el)
    ([0x50; 0x4b; 0x07; 0x08] ++ repeat 0 12)
  = OK (headerBytes options date (checksumField options processed)
          (compressedSizeField processed) (sizeField processed) fl el,
        footerBytes options processed).
Proof.
  unfold patchSizes, headerBytes, versionBytes, footerBytes, checksumField,
    compressedSizeField, sizeField.
  destruct processed as [[r result]|];
    destruct (hasPassword options), (isCompressed options);
    try reflexivity;
    destruct (signature result); reflexivity.
Qed.

Lemma localHeader_length now options filename :
  len (localHeader now options filename)
  = Z.of_nat (30 + length filename + length (entryExtraField options)).
Proof.
  unfold len, localHeader.
  rewrite !length_app, headerBytes_length. cbn [length]. lia.
Qed.

Lemma footerBytes_length options processed :
  len (footerBytes options processed) = 16.
Proof.
  unfold len, footerBytes. now rewrite !length_app, !le_bytes_length.
Qed.

Lemma getBytes_eq (s : str) : getBytes s = s.
Proof. unfold getBytes. apply map_id. Qed.

Lemma createFileEntry_eq now name reader cfg options (w : Writer) :
  createFileEntry now name reader cfg options w
  = match encodeUTF8 name with
    | Throw e => (w, Throw e)
    | OK filename =>
        match encodeUTF8 (entryComment options) with
        | Throw e => (w, Throw e)
        | OK comment =>
            match processContent reader cfg options
                    (Writer_writeUint8Array w
                       (localHeader now options filename)) with
            | (w', Throw e) => (w', Throw e)
            | (w', OK processed) =>
                (Writer_writeUint8Array w' (footerBytes options processed),
                 OK (encodedEntry now options filename comment processed))
            end
        end
    end.
Proof.
  unfold createFileEntry, bind, lift, entryComment.
  destruct (encodeUTF8 name) as [filename|e]; [|reflexivity].
  destruct (encodeUTF8 _) as [comment|e]; [|reflexivity].
  rewrite headerStart_eq, !getBytes_eq.
  fold (entryDate now options).
  set (date := entryDate now options).
  set (fl := length filename). set (extra := entryExtraField options).
  assert (Hv := versionBytes_length options).
  store 0%nat 18%nat. store 0%nat 16%nat. store 12%nat 2%nat.
  store 0%nat 0%nat.
  match goal with
  | |- context [patchSizes _ _ ?h _] =>
      replace h with (headerBytes options date 0 0 0 fl (length extra))
        by (unfold headerBytes, len; rewrite <- !app_assoc; reflexivity)
  end.
  change (newUint8Array (30 + fl + length extra))
    with ([] ++ repeat 0 (30 + fl + length extra)).
  assert (Hh := headerBytes_length options date 0 0 0 fl (length extra)).
  store 0%nat (26 + fl + length extra)%nat.
  store 0%nat (fl + length extra)%nat.
  store 0%nat (length extra).
  store 0%nat 0%nat.
  match goal with
  | |- context [writeUint8Array ?a w] =>
      replace a with (localHeader now options filename)
        by (unfold localHeader; fold date; fold extra; fold fl;
            rewrite <- !app_assoc; cbn [repeat app];
            rewrite app_nil_r; reflexivity)
  end.
  unfold writeUint8Array at 1.
  destruct (processContent _ _ _ _) as [w' [processed|e]]; [|reflexivity].
  change (array_set (newUint8Array 16) (be_bytes 4 1347094280) 0)
    with (OK ([0x50; 0x4b; 0x07; 0x08] ++ repeat 0 12)).
  cbv beta iota. rewrite patchSizes_eq. unfold writeUint8Array, ret.
  f_equal. f_equal. unfold encodedEntry. fold date. fold extra. fold fl.
  f_equal. rewrite localHeader_length, footerBytes_length.
  fold extra. fold fl. unfold compressedSizeField.
  destruct processed as [[r result]|]; reflexivity.
Qed.

End Encoder.

(** ** The map of entries *)

Section MapFacts.

Context {V : Type}.

Lemma Map_set_new (m : Map V) (k : str) (v : V) :
  Map_has m k = false -> Map_set m k v = m ++ [(k, v)].
Proof.
  induction m as [|[k' v'] m IH]; simpl; [reflexivity|].
  destruct (str_eq_dec k' k); [discriminate|].
  intros H. now rewrite IH.
Qed.

Lemma Map_set_last (m : Map V) (k : str) (v0 v : V) :
  Map_has m k = false -> Map_set (m ++ [(k, v0)]) k v = m ++ [(k, v)].
Proof.
  induction m as [|[k' v'] m IH]; simpl.
  - destruct (str_eq_dec k k); [reflexivity | contradiction].
  - destruct (str_eq_dec k' k); [discriminate|].
    intros H. now rewrite IH.
Qed.

Lemma Map_has_In (m : Map V) (k : str) :
  Map_has m k = true <-> In k (Map_keys m).
Proof.
  induction m as [|[k' v'] m IH]; simpl.
  - split; [discriminate | tauto].
  - destruct (str_eq_dec k' k) as [->|n].
    + split; auto.
    + rewrite IH. split; [auto | intros [H|H]; [contradiction | exact H]].
Qed.

Lemma Map_has_false (m : Map V) (k : str) :
  Map_has m k = false <-> ~ In k (Map_keys m).
Proof.
  rewrite <- Map_has_In. destruct (Map_has m k); split; congruence.
Qed.

End MapFacts.

(** ** One call of [add] *)

Section Add.

Context {C : Collaborators}.

Lemma Writer_write_nil (w : Writer) : Writer_writeUint8Array w [] = w.
Proof.
  destruct w. unfold Writer_writeUint8Array. simpl. now rewrite app_nil_r.
Qed.

Lemma Writer_write_write (w : Writer) (a b : list Z) :
  Writer_writeUint8Array (Writer_writeUint8Array w a) b
  = Writer_writeUint8Array w (a ++ b).
Proof. unfold Writer_writeUint8Array. simpl. now rewrite app_assoc. Qed.

Lemma processContent_sink reader cfg options (w : Writer) :
  processContent reader cfg options w
  = (Writer_writeUint8Array w (contentBytes reader cfg options),
     contentResult reader cfg options).
Proof.
  unfold contentBytes, contentResult, processContent.
  destruct reader as [r|]; unfold bind, lift, ret; simpl.
  - destruct (reader_init r) as [r'|e]; simpl;
      [|now rewrite Writer_write_nil].
    destruct (createCodec _ _) as [codec|e]; simpl;
      [|now rewrite Writer_write_nil].
    destruct (processData _ _ _ _ _ _) as [bytes [result|e]]; reflexivity.
  - now rewrite Writer_write_nil.
Qed.

Lemma createFileEntry_sink now name reader cfg options (w : Writer) :
  createFileEntry now name reader cfg options w
  = (Writer_writeUint8Array w (entryBytes now name reader cfg options),
     entryResult now name reader cfg options).
Proof.
  unfold entryBytes, entryResult. rewrite !createFileEntry_eq.
  destruct (encodeUTF8 name) as [filename|e];
    [|simpl; now rewrite Writer_write_nil].
  destruct (encodeUTF8 _) as [comment|e];
    [|simpl; now rewrite Writer_write_nil].
  rewrite !processContent_sink.
  destruct (contentResult reader cfg options) as [processed|e];
    cbv beta iota; rewrite !Writer_write_write; reflexivity.
Qed.

Lemma prepared_fields options this :
  files (prepared options this) = files this
  /\ offset (prepared options this) = offset this
  /\ config (prepared options this) = config this
  /\ data (writer (prepared options this)) = data (writer this).
Proof.
  unfold prepared.
  destruct (bufferedWrite options), (initialized (writer this)); auto.
Qed.

Lemma add_duplicate now name reader options this :
  Map_has (files this) (entryName name options) = true ->
  add now name reader options this
  = (prepared options this, Throw ERR_DUPLICATED_NAME).
Proof.
  intros H. unfold add. fold (prepared options this).
  destruct (prepared_fields options this) as (-> & _).
  now rewrite H.
Qed.

Lemma add_fresh now name reader options this :
  Map_has (files this) (entryName name options) = false ->
  add now name reader options this
  = let n := entryName name options in
    let bytes := entryBytes now n reader (config this) options in
    match entryResult now n reader (config this) options with
    | Throw e =>
        ({| writer := if bufferedWrite options then writer this
                      else Writer_writeUint8Array
                             (writer (prepared options this)) bytes;
            config := config this;
            files := files this ++ [(n, None)];
            offset := offset this |}, Throw e)
    | OK fileEntry =>
        ({| writer := Writer_writeUint8Array
                        (writer (prepared options this)) bytes;
            config := config this;
            files := files this
                     ++ [(n, Some (FileEntry.set_offset fileEntry
                                     (offset this)))];
            offset := offset this + FileEntry.length fileEntry |}, OK tt)
    end.
Proof.
  intros H. unfold add. fold (prepared options this).
  destruct (prepared_fields options this) as (Hf & Ho & Hc & _).
  rewrite Hf, H. set (n := entryName name options) in *.
  unfold set_files at 1. cbn [config]. rewrite Hc.
  rewrite createFileEntry_sink. cbv zeta.
  destruct (entryResult now n reader (config this) options) as [fe|e];
    destruct (bufferedWrite options) eqn:Hb;
    unfold set_files, set_writer, set_offset;
    cbn [files writer offset config];
    rewrite ?Hf, ?Ho, ?Hc,
      ?(Map_set_new _ _ _ H), ?(Map_set_last _ _ _ _ H);
    unfold prepared; rewrite ?Hb;
    reflexivity.
Qed.

End Add.

(** ** The central directory *)

Section Close.

Context {C : Collaborators}.

Lemma centralRecord_length (file : FileEntry.t) :
  length (FileEntry.headerArray file) = 26%nat ->
  length (centralRecord file)
  = (46 + length (FileEntry.filename file)
     + length (FileEntry.comment file)
     + length (FileEntry.extraField file))%nat.
Proof.
  intros H. unfold centralRecord. lens. rewrite H. lia.
Qed.

Lemma writeRecord_eq (file : FileEntry.t) (pre : list Z) (m : nat) :
  length (FileEntry.headerArray file) = 26%nat ->
  writeRecord file (length pre)
    (pre ++ repeat 0 (length (centralRecord file) + m))
  = OK ((length pre + length (centralRecord file))%nat,
        (pre ++ centralRecord file) ++ repeat 0 m).
Proof.
  intros H. rewrite (centralRecord_length file H).
  unfold writeRecord, Err_bind.
  set (fl := length (FileEntry.filename file)).
  set (cl := length (FileEntry.comment file)).
  set (el := length (FileEntry.extraField file)).
  store 0%nat (42 + fl + cl + el + m)%nat.
  store 0%nat (40 + fl + cl + el + m)%nat.
  store 0%nat (14 + fl + cl + el + m)%nat.
  store 0%nat (12 + fl + cl + el + m)%nat.
  unfold centralRecord, len. fold fl cl el.
  destruct (FileEntry.directory file).
  - store 4%nat (7 + fl + cl + el + m)%nat.
    store 3%nat (fl + cl + el + m)%nat.
    store 0%nat (cl + el + m)%nat.
    store 0%nat (cl + m)%nat.
    store 0%nat m.
    do 2 f_equal. f_equal. rewrite <- !app_assoc. reflexivity.
  - store 8%nat (fl + cl + el + m)%nat.
    store 0%nat (cl + el + m)%nat.
    store 0%nat (cl + m)%nat.
    store 0%nat m.
    do 2 f_equal. f_equal. rewrite <- !app_assoc. reflexivity.
Qed.

Lemma complete_cons k v (fs : Map (option FileEntry.t)) :
  complete ((k, v) :: fs)
  <-> (exists file, v = Some file
                    /\ length (FileEntry.headerArray file) = 26%nat)
      /\ complete fs.
Proof.
  unfold complete. split; intros H; [inversion H | constructor]; tauto.
Qed.

Lemma directoryLength_eq (fs : Map (option FileEntry.t)) (acc : nat) :
  complete fs ->
  directoryLength fs acc
  = OK (acc + length (flat_map centralRecord (entries fs)))%nat.
Proof.
  revert acc. induction fs as [|[k v] fs IH]; intros acc H.
  - simpl. now rewrite Nat.add_0_r.
  - apply complete_cons in H. destruct H as [(file & -> & Hh) Hfs].
    cbn [directoryLength entries flat_map]. rewrite IH by exact Hfs.
    rewrite length_app, (centralRecord_length file Hh). f_equal. lia.
Qed.

Lemma writeRecords_eq (fs : Map (option FileEntry.t)) (pre : list Z)
    (m : nat) :
  complete fs ->
  writeRecords fs (length pre)
    (pre ++ repeat 0 (length (flat_map centralRecord (entries fs)) + m))
  = OK ((length pre + length (flat_map centralRecord (entries fs)))%nat,
        (pre ++ flat_map centralRecord (entries fs)) ++ repeat 0 m).
Proof.
  revert pre. induction fs as [|[k v] fs IH]; intros pre H.
  - simpl. now rewrite Nat.add_0_r, app_nil_r.
  - apply complete_cons in H. destruct H as [(file & -> & Hh) Hfs].
    cbn [writeRecords entries flat_map].
    rewrite length_app, <- Nat.add_assoc.
    rewrite (writeRecord_eq file pre _ Hh). cbn [Err_bind fst snd].
    rewrite <- length_app. rewrite IH by exact Hfs.
    rewrite !length_app, <- !app_assoc. do 2 f_equal. lia.
Qed.

Lemma directoryData_eq (this : ZipWriter) (comment : option (list Z)) :
  complete (files this) ->
  directoryData this comment
  = try cl <- commentLength comment;
    OK (flat_map centralRecord (entries (files this))
        ++ endOfCentralDirectory (Map_size (files this))
             (length (flat_map centralRecord (entries (files this))))
             (offset this) cl).
Proof.
  intros H. unfold directoryData.
  rewrite (directoryLength_eq _ 0%nat H). cbn [Err_bind Nat.add].
  set (dir := flat_map centralRecord (entries (files this))).
  change (newUint8Array (length dir + 22))
    with ([] ++ repeat 0 (length dir + 22)).
  change 0%nat with (length (@nil Z)) at 1.
  rewrite writeRecords_eq by exact H. fold dir.
  cbn [Err_bind fst snd app length Nat.add]. unfold Err_bind.
  store 0%nat 18%nat. store 4%nat 12%nat. store 0%nat 10%nat.
  store 0%nat 6%nat. store 0%nat 2%nat.
  unfold commentLength, endOfCentralDirectory.
  destruct comment as [[|b c]|].
  - rewrite <- !app_assoc. reflexivity.
  - destruct (len (b :: c) <=? 65536); [|reflexivity].
    store 0%nat 0%nat. rewrite <- !app_assoc. reflexivity.
  - rewrite <- !app_assoc. reflexivity.
Qed.

End Close.

(** ** Sequences of calls *)

Section Calls.

Context {C : Collaborators}.

Lemma entryResult_eq now name reader cfg options :
  entryResult now name reader cfg options
  = try filename <- encodeUTF8 name;
    try comment <- encodeUTF8 (entryComment options);
    try processed <- contentResult reader cfg options;
    OK (encodedEntry now options filename comment processed).
Proof.
  unfold entryResult. rewrite createFileEntry_eq. unfold Err_bind.
  destruct (encodeUTF8 name); [|reflexivity].
  destruct (encodeUTF8 _); [|reflexivity].
  rewrite processContent_sink.
  destruct (contentResult reader cfg options); reflexivity.
Qed.

Lemma entryResult_header now name reader cfg options fe :
  entryResult now name reader cfg options = OK fe ->
  length (FileEntry.headerArray fe) = 26%nat.
Proof.
  rewrite entryResult_eq. unfold Err_bind.
  destruct (encodeUTF8 name); [|discriminate].
  destruct (encodeUTF8 _); [|discriminate].
  destruct (contentResult reader cfg options); [|discriminate].
  intros [= <-]. apply headerBytes_length.
Qed.

(** What a call that returns has done. *)
Lemma add_returns now name reader options this this' :
  add now name reader options this = (this', OK tt) ->
  exists fe,
    Map_has (files this) (entryName name options) = false
    /\ entryResult now (entryName name options) reader (config this) options
       = OK fe
    /\ this'
       = {| writer :=
              Writer_writeUint8Array (writer (prepared options this))
                (entryBytes now (entryName name options) reader
                   (config this) options);
            config := config this;
            files := files this
                     ++ [(entryName name options,
                          Some (FileEntry.set_offset fe (offset this)))];
            offset := offset this + FileEntry.length fe |}.
Proof.
  destruct (Map_has (files this) (entryName name options)) eqn:Hhas.
  - rewrite add_duplicate by exact Hhas. discriminate.
  - rewrite add_fresh by exact Hhas. cbv zeta.
    destruct (entryResult _ _ _ _ _) as [fe|e]; [|discriminate].
    intros [= <-]. exists fe. auto.
Qed.

Lemma entries_snoc (fs : Map (option FileEntry.t)) k e :
  entries (fs ++ [(k, Some e)]) = entries fs ++ [e].
Proof.
  induction fs as [|[k' [e'|]] fs IH]; simpl; [reflexivity| |];
    now rewrite IH.
Qed.

Lemma chained_snoc (es : list FileEntry.t) (e : FileEntry.t)
    (start final : Z) :
  chained start es final ->
  FileEntry.offset e = Some final ->
  chained start (es ++ [e]) (final + FileEntry.length e).
Proof.
  revert start. induction es as [|e' es IH]; simpl; intros start H He.
  - subst. auto.
  - destruct H as [H1 H2]. auto.
Qed.

Lemma add_consistent now name reader options this this' :
  consistent this ->
  add now name reader options this = (this', OK tt) ->
  consistent this'
  /\ config this' = config this
  /\ Map_keys (files this')
     = Map_keys (files this) ++ [entryName name options]
  /\ ~ In (entryName name options) (Map_keys (files this))
  /\ exists e, entries (files this') = entries (files this) ++ [e]
               /\ encodeUTF8 (entryName name options)
                  = OK (FileEntry.filename e).
Proof.
  intros [[Hc Hnd] Hch] Hadd.
  destruct (add_returns _ _ _ _ _ _ Hadd) as (fe & Hnew & Hfe & ->).
  unfold consistent. cbn [files offset config]. repeat split.
  - unfold complete. apply Forall_app. split; [exact Hc|].
    constructor; [|constructor]. eexists. split; [reflexivity|].
    cbn. eapply entryResult_header; eassumption.
  - unfold Map_keys. rewrite map_app. cbn [map fst].
    apply NoDup_app; [exact Hnd | repeat constructor; intros [] |].
    intros k Hk [<-|[]]. now apply Map_has_false in Hnew.
  - rewrite entries_snoc.
    exact (chained_snoc _ (FileEntry.set_offset fe (offset this)) _ _
             Hch eq_refl).
  - unfold Map_keys. now rewrite map_app.
  - now apply Map_has_false.
  - eexists. split; [apply entries_snoc|]. cbn.
    rewrite entryResult_eq in Hfe. unfold Err_bind in Hfe.
    destruct (encodeUTF8 (entryName name options)); [|discriminate].
    destruct (encodeUTF8 _); [|discriminate].
    destruct (contentResult _ _ _); [|discriminate].
    now injection Hfe as <-.
Qed.

Lemma addAll_consistent (calls : list AddCall) this this' :
  consistent this ->
  addAll calls this = (this', OK tt) ->
  consistent this'
  /\ config this' = config this
  /\ Map_keys (files this') = Map_keys (files this) ++ map callKey calls
  /\ exists es, entries (files this') = entries (files this) ++ es
                /\ Forall2 (fun c e => encodeUTF8 (callKey c)
                                       = OK (FileEntry.filename e))
                     calls es.
Proof.
  revert this. induction calls as [|c calls IH]; intros this Hc Hrun.
  - injection Hrun as <-. rewrite !app_nil_r.
    do 3 (split; [easy|]).
    exists []. rewrite app_nil_r. auto.
  - cbn [addAll] in Hrun. unfold bind in Hrun.
    destruct (add _ _ _ _ this) as [this1 [[]|e]] eqn:Hadd;
      [|discriminate].
    destruct (add_consistent _ _ _ _ _ _ Hc Hadd)
      as (Hc1 & Hcfg1 & Hk1 & _ & e1 & He1 & Hn1).
    destruct (IH this1 Hc1 Hrun) as (Hc' & Hcfg' & Hk' & es & Hes & Hall).
    split; [assumption|]. split; [congruence|]. split.
    + rewrite Hk', Hk1, <- app_assoc. reflexivity.
    + exists (e1 :: es). split.
      * rewrite Hes, He1, <- app_assoc. reflexivity.
      * constructor; assumption.
Qed.

Lemma addAll_app (calls1 calls2 : list AddCall) (this this' : ZipWriter) :
  addAll (calls1 ++ calls2) this = (this', OK tt) ->
  exists mid,
    addAll calls1 this = (mid, OK tt) /\ addAll calls2 mid = (this', OK tt).
Proof.
  revert this. induction calls1 as [|c calls1 IH]; intros this Hrun.
  - exists this. auto.
  - cbn [app addAll] in *. unfold bind in *.
    destruct (add _ _ _ _ this) as [this1 [[]|e]]; [|discriminate].
    exact (IH this1 Hrun).
Qed.

Lemma chained_app (es1 es2 : list FileEntry.t) (start mid final : Z) :
  chained start es1 mid -> chained start (es1 ++ es2) final ->
  chained mid es2 final.
Proof.
  revert start. induction es1 as [|e es1 IH]; simpl; intros start H1 H2.
  - now subst.
  - destruct H1 as [_ H1], H2 as [_ H2]. exact (IH _ H1 H2).
Qed.

Lemma newZipWriter_consistent (w : Writer) (cfg : Config) :
  consistent (newZipWriter w cfg).
Proof. split; [split; constructor | reflexivity]. Qed.

Lemma chained_adjacent (es : list FileEntry.t) (start final : Z) :
  chained start es final ->
  forall i e1 e2,
    nth_error es i = Some e1 -> nth_error es (S i) = Some e2 ->
    exists o, FileEntry.offset e1 = Some o
              /\ FileEntry.offset e2 = Some (o + FileEntry.length e1).
Proof.
  revert start. induction es as [|e es IH]; intros start H i e1 e2 H1 H2.
  - destruct i; discriminate.
  - destruct H as [Ho Hr]. destruct i as [|i].
    + injection H1 as <-. destruct es as [|e' es]; [discriminate|].
      injection H2 as <-. destruct Hr as [Ho' _]. eauto.
    + exact (IH _ Hr i e1 e2 H1 H2).
Qed.

Lemma chained_final (es : list FileEntry.t) (start final : Z) :
  chained start es final ->
  final = fold_left (fun a e => a + FileEntry.length e) es start.
Proof.
  revert start. induction es as [|e es IH]; intros start H.
  - simpl in *. congruence.
  - destruct H as [_ Hr]. simpl. exact (IH _ Hr).
Qed.

End Calls.

(** ** [close] *)

Section CloseCall.

Context {C : Collaborators}.

Lemma close_eq (this : ZipWriter) (comment : option (list Z)) :
  complete (files this) ->
  close comment this
  = match commentLength comment with
    | Throw e => (this, Throw e)
    | OK cl =>
        (set_writer this
           (Writer_writeUint8Array (writer this)
              (directoryBytes this cl ++ commentBytes comment)),
         OK (data (writer this)
             ++ directoryBytes this cl ++ commentBytes comment))
    end.
Proof.
  intros H. unfold close, bind. rewrite (directoryData_eq this comment H).
  fold (directoryBytes this).
  destruct (commentLength comment) as [cl|e]; [|reflexivity].
  cbn [Err_bind]. unfold Writer_getData, commentBytes, set_writer.
  destruct comment as [[|b c]|]; cbn [writer data];
    rewrite ?Writer_write_write, ?app_nil_r; reflexivity.
Qed.

Lemma endOfCentralDirectory_length count dl off cl :
  length (endOfCentralDirectory count dl off cl) = 22%nat.
Proof. unfold endOfCentralDirectory. lens. reflexivity. Qed.

End CloseCall.

(** ** Fields of the trailer *)

Lemma slice_at (a b c : list Z) (off n : nat) :
  off = length a -> n = length b -> slice (a ++ b ++ c) off n = b.
Proof.
  intros -> ->. unfold slice.
  rewrite skipn_app, skipn_all, Nat.sub_diag. cbn [skipn app].
  rewrite firstn_app, firstn_all, Nat.sub_diag. cbn [firstn].
  apply app_nil_r.
Qed.

Lemma slice_app_r (a t : list Z) (off k n : nat) :
  off = (length a + k)%nat -> slice (a ++ t) off n = slice t k n.
Proof.
  intros ->. unfold slice. rewrite skipn_app.
  rewrite skipn_all2 by lia.
  now replace (length a + k - length a)%nat with k by lia.
Qed.

Section Trailer.

Context {C : Collaborators}.

(** The fields of the trailer, each at its place after the records. *)
Lemma directoryBytes_fields this cl :
  slice (directoryBytes this cl) (recordsLength this) 4
  = [0x50; 0x4b; 0x05; 0x06]
  /\ slice (directoryBytes this cl) (recordsLength this + 8) 2
     = le_bytes 2 (Map_size (files this))
  /\ slice (directoryBytes this cl) (recordsLength this + 10) 2
     = le_bytes 2 (Map_size (files this))
  /\ slice (directoryBytes this cl) (recordsLength this + 12) 4
     = le_bytes 4 (Z.of_nat (recordsLength this))
  /\ slice (directoryBytes this cl) (recordsLength this + 16) 4
     = le_bytes 4 (offset this)
  /\ slice (directoryBytes this cl) (recordsLength this + 20) 2
     = le_bytes 2 cl
  /\ length (directoryBytes this cl) = (recordsLength this + 22)%nat.
Proof.
  unfold directoryBytes, recordsLength.
  set (recs := flat_map centralRecord (entries (files this))).
  repeat split;
    try (erewrite slice_app_r by (symmetry; try apply Nat.add_0_r;
                                  reflexivity);
         reflexivity).
  rewrite length_app, endOfCentralDirectory_length. reflexivity.
Qed.

End Trailer.

(** * The claims *)

(** ** The archive comment *)

Section ArchiveComment.

Context {C : Collaborators}.

(** A comment of 65535 bytes is accepted and its length is declared in
    full, [ff ff]. *)
Lemma close_comment_65535 (this : ZipWriter) (comment : list Z) :
  complete (files this) -> len comment = 65535 ->
  snd (close (Some comment) this)
  = OK (data (writer this) ++ directoryBytes this 65535 ++ comment)
  /\ slice (directoryBytes this 65535) (recordsLength this + 20) 2
     = [255; 255].
Proof.
  intros Hc Hl. rewrite close_eq by exact Hc. split.
  - destruct comment as [|b c]; [discriminate|].
    unfold commentLength. rewrite Hl. reflexivity.
  - now destruct (directoryBytes_fields this 65535)
      as (_ & _ & _ & _ & _ & -> & _).
Qed.

(** A comment of 65537 bytes or more is refused, and nothing is written. *)
Lemma close_comment_over_65536 (this : ZipWriter) (comment : list Z) :
  complete (files this) -> 65536 < len comment ->
  close (Some comment) this = (this, Throw ERR_ZIP_FILE_COMMENT).
Proof.
  intros Hc Hl. rewrite close_eq by exact Hc.
  destruct comment as [|b c]; [discriminate|].
  unfold commentLength.
  destruct (Z.leb_spec (len (b :: c)) 65536); [lia | reflexivity].
Qed.

(** C1, where the code departs from it: a comment of exactly 65536 bytes
    passes the guard [comment.length <= 65536].  [close] does not throw;
    it writes the directory, whose 16-bit comment length wraps to
    [00 00], and then the 65536 bytes of the comment. *)
Theorem close_comment_65536_accepted (this : ZipWriter) (comment : list Z) :
  complete (files this) -> len comment = 65536 ->
  snd (close (Some comment) this)
  = OK (data (writer this) ++ directoryBytes this 65536 ++ comment)
  /\ slice (directoryBytes this 65536) (recordsLength this + 20) 2
     = [0; 0].
Proof.
  intros Hc Hl. rewrite close_eq by exact Hc. split.
  - destruct comment as [|b c]; [discriminate|].
    unfold commentLength. rewrite Hl. reflexivity.
  - now destruct (directoryBytes_fields this 65536)
      as (_ & _ & _ & _ & _ & -> & _).
Qed.

End ArchiveComment.

Lemma close_comment_65536_accepted_witness :
  snd (close (Some (repeat 7 (Z.to_nat 65536))) emptyArchive)
  = OK (data (writer emptyArchive)
        ++ directoryBytes emptyArchive 65536 ++ repeat 7 (Z.to_nat 65536))
  /\ slice (directoryBytes emptyArchive 65536)
       (recordsLength emptyArchive + 20) 2
     = [0; 0].
Proof.
  apply close_comment_65536_accepted.
  - constructor.
  - vm_compute. reflexivity.
Defined.

(** ** A name that is already there *)

Section DuplicateName.

Context {C : Collaborators}.

(** C2: when the key of the call, [entryName name options], is already
    in the map, [add] throws the duplicate-name error; the map, hence the
    number of entries, the bytes on the sink and the running offset are
    what they were. *)
Theorem add_duplicate_name now name reader options (this : ZipWriter) :
  Map_has (files this) (entryName name options) = true ->
  exists this',
    add now name reader options this = (this', Throw ERR_DUPLICATED_NAME)
    /\ files this' = files this
    /\ Map_size (files this') = Map_size (files this)
    /\ data (writer this') = data (writer this)
    /\ offset this' = offset this.
Proof.
  intros H. exists (prepared options this).
  destruct (prepared_fields options this) as (Hf & Ho & _ & Hd).
  rewrite add_duplicate by exact H. rewrite Hf. auto.
Qed.

End DuplicateName.

Lemma add_duplicate_name_witness :
  exists this',
    add june15 (32 :: a_txt ++ [32]) None plainOptions archiveWithFile
    = (this', Throw ERR_DUPLICATED_NAME)
    /\ files this' = files archiveWithFile
    /\ Map_size (files this') = Map_size (files archiveWithFile)
    /\ data (writer this') = data (writer archiveWithFile)
    /\ offset this' = offset archiveWithFile.
Proof.
  apply add_duplicate_name. vm_compute. reflexivity.
Defined.

(** ** Offsets and the order of the directory *)

Section Offsets.

Context {C : Collaborators}.

(** One successful call leaves the entries already present as they are,
    gives the new entry the running offset it found, and advances the
    running offset by the length of the new entry. *)
Lemma add_assigns_offset now name reader options (this this' : ZipWriter) :
  add now name reader options this = (this', OK tt) ->
  exists e,
    entries (files this') = entries (files this) ++ [e]
    /\ FileEntry.offset e = Some (offset this)
    /\ offset this' = offset this + FileEntry.length e.
Proof.
  intros Hadd.
  destruct (add_returns _ _ _ _ _ _ Hadd) as (fe & _ & _ & ->).
  exists (FileEntry.set_offset fe (offset this)). cbn [files offset].
  rewrite entries_snoc. auto.
Qed.

(** C3: after a sequence of [add] calls that all return, there is one
    entry per call; the first entry is at 0, each next entry is at the offset
    of the one before it plus that one's length, and the running offset is the
    sum of the lengths.  The records made by the first calls of the sequence
    are still there, as they were, after the later calls, which chain their
    own entries from the running offset they found.  [close] stores the
    running offset, as 32 bits in little-endian order, at 16 of the trailer:
    the field reads back as the running offset itself whenever that fits 32
    bits. *)
Theorem offsets_follow_lengths (w : Writer) (cfg : Config)
    (calls : list AddCall) (this : ZipWriter) :
  addAll calls (newZipWriter w cfg) = (this, OK tt) ->
  length (entries (files this)) = length calls
  /\ (forall e, nth_error (entries (files this)) 0 = Some e ->
                FileEntry.offset e = Some 0)
  /\ (forall i e1 e2,
        nth_error (entries (files this)) i = Some e1 ->
        nth_error (entries (files this)) (S i) = Some e2 ->
        exists o, FileEntry.offset e1 = Some o
                  /\ FileEntry.offset e2 = Some (o + FileEntry.length e1))
  /\ offset this
     = fold_left (fun a e => a + FileEntry.length e) (entries (files this)) 0
  /\ (forall calls1 calls2,
        calls = calls1 ++ calls2 ->
        exists mid es,
          addAll calls1 (newZipWriter w cfg) = (mid, OK tt)
          /\ entries (files this) = entries (files mid) ++ es
          /\ length es = length calls2
          /\ chained (offset mid) es (offset this))
  /\ forall comment cl,
       commentLength comment = OK cl ->
       snd (close comment this)
       = OK (data (writer this)
             ++ directoryBytes this cl ++ commentBytes comment)
       /\ slice (directoryBytes this cl) (recordsLength this + 16) 4
          = le_bytes 4 (offset this)
       /\ (0 <= offset this < 2 ^ 32 ->
           le_value (slice (directoryBytes this cl)
                       (recordsLength this + 16) 4)
           = offset this).
Proof.
  intros Hrun.
  destruct (addAll_consistent calls _ _ (newZipWriter_consistent w cfg) Hrun)
    as ([[Hc _] Hch] & _ & _ & es & Hes & Hall).
  cbn [newZipWriter files entries app] in Hes.
  split; [|split; [|split; [|split; [|split]]]].
  - rewrite Hes. symmetry. exact (Forall2_length Hall).
  - destruct (entries (files this)) as [|e0 r]; [discriminate|].
    intros e [= <-]. apply Hch.
  - exact (chained_adjacent _ _ _ Hch).
  - exact (chained_final _ _ _ Hch).
  - intros calls1 calls2 ->.
    destruct (addAll_app _ _ _ _ Hrun) as (mid & Hrun1 & Hrun2).
    destruct (addAll_consistent calls1 _ _ (newZipWriter_consistent w cfg)
                Hrun1) as (Hmid & _).
    destruct (addAll_consistent calls2 _ _ Hmid Hrun2)
      as (_ & _ & _ & es2 & Hes2 & Hall2).
    exists mid, es2. split; [exact Hrun1|]. split; [exact Hes2|].
    split; [symmetry; exact (Forall2_length Hall2)|].
    destruct Hmid as [_ Hchmid]. rewrite Hes2 in Hch.
    exact (chained_app _ _ _ _ _ Hchmid Hch).
  - intros comment cl Hcl. rewrite close_eq by exact Hc. rewrite Hcl.
    destruct (directoryBytes_fields this cl) as (_ & _ & _ & _ & Ho & _).
    split; [reflexivity|]. split; [exact Ho|].
    intros Hr. rewrite Ho. now apply le_value_le_bytes_small.
Qed.

(** C7: after a sequence of [add] calls that all return, the keys of the
    map are the keys of the calls, in the order of the calls and without
    repetition; the entries carry, in that order, the encoded names; [close]
    writes the records of these entries one after the other, followed by the
    trailer; the two count fields of the trailer hold the same two bytes, the
    number of calls as 16 bits in little-endian order, which reads back as
    the number of calls whenever that fits 16 bits. *)
Theorem directory_lists_entries_in_order (w : Writer) (cfg : Config)
    (calls : list AddCall) (this : ZipWriter) :
  addAll calls (newZipWriter w cfg) = (this, OK tt) ->
  Map_keys (files this) = map callKey calls
  /\ NoDup (map callKey calls)
  /\ Forall2 (fun c e => encodeUTF8 (callKey c) = OK (FileEntry.filename e))
       calls (entries (files this))
  /\ forall comment cl,
       commentLength comment = OK cl ->
       snd (close comment this)
       = OK (data (writer this)
             ++ (flat_map centralRecord (entries (files this))
                 ++ endOfCentralDirectory (len calls) (recordsLength this)
                      (offset this) cl)
             ++ commentBytes comment)
       /\ slice (directoryBytes this cl) (recordsLength this + 8) 2
          = le_bytes 2 (len calls)
       /\ slice (directoryBytes this cl) (recordsLength this + 10) 2
          = le_bytes 2 (len calls)
       /\ (len calls < 2 ^ 16 ->
           le_value (slice (directoryBytes this cl)
                       (recordsLength this + 8) 2) = len calls
           /\ le_value (slice (directoryBytes this cl)
                          (recordsLength this + 10) 2) = len calls).
Proof.
  intros Hrun.
  destruct (addAll_consistent calls _ _ (newZipWriter_consistent w cfg) Hrun)
    as ([[Hc Hnd] Hch] & _ & Hk & es & Hes & Hall).
  cbn [newZipWriter files entries Map_keys map app] in Hk, Hes.
  assert (Hsize : Map_size (files this) = len calls).
  { unfold Map_size, len. f_equal.
    rewrite <- (length_map fst (files this)). fold (Map_keys (files this)).
    rewrite Hk. apply length_map. }
  split; [exact Hk|]. split; [now rewrite <- Hk|].
  split; [now rewrite Hes|].
  intros comment cl Hcl. rewrite close_eq by exact Hc. rewrite Hcl.
  destruct (directoryBytes_fields this cl) as (_ & H8 & H10 & _).
  rewrite Hsize in H8, H10.
  split; [unfold directoryBytes, recordsLength; now rewrite Hsize|].
  split; [exact H8|]. split; [exact H10|].
  intros Hn. rewrite H8, H10.
  assert (0 <= len calls) by (unfold len; lia).
  split; apply le_value_le_bytes_small; lia.
Qed.

End Offsets.

Lemma offsets_follow_lengths_witness :
  length (entries (files twoFiles)) = length twoCalls
  /\ (forall e, nth_error (entries (files twoFiles)) 0 = Some e ->
                FileEntry.offset e = Some 0)
  /\ (forall i e1 e2,
        nth_error (entries (files twoFiles)) i = Some e1 ->
        nth_error (entries (files twoFiles)) (S i) = Some e2 ->
        exists o, FileEntry.offset e1 = Some o
                  /\ FileEntry.offset e2 = Some (o + FileEntry.length e1))
  /\ offset twoFiles
     = fold_left (fun a e => a + FileEntry.length e)
         (entries (files twoFiles)) 0
  /\ (forall calls1 calls2,
        twoCalls = calls1 ++ calls2 ->
        exists mid es,
          addAll calls1 (newZipWriter newUint8ArrayWriter noConfig)
          = (mid, OK tt)
          /\ entries (files twoFiles) = entries (files mid) ++ es
          /\ length es = length calls2
          /\ chained (offset mid) es (offset twoFiles))
  /\ forall comment cl,
       commentLength comment = OK cl ->
       snd (close comment twoFiles)
       = OK (data (writer twoFiles)
             ++ directoryBytes twoFiles cl ++ commentBytes comment)
       /\ slice (directoryBytes twoFiles cl) (recordsLength twoFiles + 16) 4
          = le_bytes 4 (offset twoFiles)
       /\ (0 <= offset twoFiles < 2 ^ 32 ->
           le_value (slice (directoryBytes twoFiles cl)
                       (recordsLength twoFiles + 16) 4)
           = offset twoFiles).
Proof.
  apply (offsets_follow_lengths (C := StoreOnly) newUint8ArrayWriter noConfig
           twoCalls).
  vm_compute. reflexivity.
Defined.

Lemma directory_lists_entries_in_order_witness :
  Map_keys (files twoFiles) = map callKey twoCalls
  /\ NoDup (map callKey twoCalls)
  /\ Forall2 (fun c e => encodeUTF8 (callKey c) = OK (FileEntry.filename e))
       twoCalls (entries (files twoFiles))
  /\ forall comment cl,
       commentLength comment = OK cl ->
       snd (close comment twoFiles)
       = OK (data (writer twoFiles)
             ++ (flat_map centralRecord (entries (files twoFiles))
                 ++ endOfCentralDirectory (len twoCalls)
                      (recordsLength twoFiles) (offset twoFiles) cl)
             ++ commentBytes comment)
       /\ slice (directoryBytes twoFiles cl) (recordsLength twoFiles + 8) 2
          = le_bytes 2 (len twoCalls)
       /\ slice (directoryBytes twoFiles cl) (recordsLength twoFiles + 10) 2
          = le_bytes 2 (len twoCalls)
       /\ (len twoCalls < 2 ^ 16 ->
           le_value (slice (directoryBytes twoFiles cl)
                       (recordsLength twoFiles + 8) 2) = len twoCalls
           /\ le_value (slice (directoryBytes twoFiles cl)
                          (recordsLength twoFiles + 10) 2) = len twoCalls).
Proof.
  apply (directory_lists_entries_in_order (C := StoreOnly)
           newUint8ArrayWriter noConfig twoCalls).
  vm_compute. reflexivity.
Defined.

(** ** The packed time and day *)

Lemma ToInt32_small (z : Z) :
  - 2 ^ 31 <= z < 2 ^ 31 -> JS.ToInt32 z = z.
Proof.
  intros H. unfold JS.ToInt32. cbv zeta.
  destruct (Z_lt_le_dec z 0) as [Hn|Hp].
  - replace (z mod 2 ^ 32) with (z + 2 ^ 32).
    + destruct (Z.ltb_spec (z + 2 ^ 32) (2 ^ 31)); lia.
    + apply (Z.mod_unique _ _ (-1)); lia.
  - rewrite Z.mod_small by lia.
    destruct (Z.ltb_spec z (2 ^ 31)); lia.
Qed.

Lemma div_sign_range (x m : Z) :
  0 < m -> (- m <= x < m <-> x / m = 0 \/ x / m = -1).
Proof.
  intros Hm. pose proof (Z.div_mod x m ltac:(lia)) as E.
  pose proof (Z.mod_pos_bound x m Hm) as B. split; intros H; nia.
Qed.

Lemma lor_range (k a b : Z) :
  0 <= k -> - 2 ^ k <= a < 2 ^ k -> - 2 ^ k <= b < 2 ^ k ->
  - 2 ^ k <= Z.lor a b < 2 ^ k.
Proof.
  intros Hk Ha Hb. assert (Hp : 0 < 2 ^ k) by (apply Z.pow_pos_nonneg; lia).
  apply (div_sign_range _ _ Hp) in Ha, Hb. apply (div_sign_range _ _ Hp).
  rewrite <- !Z.shiftr_div_pow2 in * by exact Hk.
  rewrite Z.shiftr_lor.
  destruct Ha as [-> | ->], Hb as [-> | ->]; simpl; auto.
Qed.

Lemma lor_bounds (k a b : Z) :
  0 <= k -> 0 <= a < 2 ^ k -> 0 <= b < 2 ^ k -> 0 <= Z.lor a b < 2 ^ k.
Proof.
  intros Hk Ha Hb. split.
  - apply Z.lor_nonneg. lia.
  - apply lor_range; lia.
Qed.

Lemma lor_shiftl_add (a b n : Z) :
  0 <= n -> 0 <= b < 2 ^ n -> Z.lor (Z.shiftl a n) b = a * 2 ^ n + b.
Proof.
  intros Hn Hb. assert (Hp : 0 < 2 ^ n) by (apply Z.pow_pos_nonneg; lia).
  set (x := Z.lor (Z.shiftl a n) b).
  assert (Hq : x / 2 ^ n = a).
  { rewrite <- Z.shiftr_div_pow2 by exact Hn. unfold x.
    rewrite Z.shiftr_lor, Z.shiftr_shiftl_l by lia.
    rewrite Z.sub_diag, Z.shiftl_0_r, Z.shiftr_div_pow2 by exact Hn.
    rewrite (Z.div_small b) by exact Hb. apply Z.lor_0_r. }
  assert (Hr : x mod 2 ^ n = b).
  { rewrite <- Z.land_ones by exact Hn. unfold x.
    rewrite Z.land_lor_distr_l, !Z.land_ones by exact Hn.
    rewrite Z.shiftl_mul_pow2, Z.mod_mul by lia.
    rewrite (Z.mod_small b) by exact Hb. apply Z.lor_0_l. }
  rewrite (Z.div_mod x (2 ^ n)) by lia. rewrite Hq, Hr. lia.
Qed.

Lemma specTime_sum (date : Date) :
  validDate date ->
  specTime date
  = getHours date * 2048 + getMinutes date * 32 + getSeconds date / 2.
Proof.
  intros (Hh & Hm & Hs & _). unfold specTime.
  assert (0 <= getSeconds date / 2 < 2 ^ 5)
    by (split; [apply Z.div_pos | apply Z.div_lt_upper_bound]; lia).
  rewrite (lor_shiftl_add (getHours date)) by lia.
  rewrite lor_shiftl_add by lia. lia.
Qed.

Lemma specDate_sum (date : Date) :
  validDate date ->
  specDate date
  = (getFullYear date - 1980) * 512 + (getMonth date + 1) * 32
    + getDate date.
Proof.
  intros (_ & _ & _ & Hmo & Hd & _). unfold specDate.
  rewrite (lor_shiftl_add (getFullYear date - 1980)) by lia.
  rewrite lor_shiftl_add by lia. lia.
Qed.

Section DosFields.

Context {C : Collaborators}.

Lemma dosTime_spec (date : Date) :
  validDate date ->
  dosTime date = specTime date /\ 0 <= specTime date < 2 ^ 16.
Proof.
  intros (Hh & Hm & Hs & _).
  unfold dosTime, specTime, JS.or_quot, JS.shl, JS.or.
  change (6 mod 32) with 6. change (5 mod 32) with 5.
  set (h := getHours date) in *. set (m := getMinutes date) in *.
  set (s := getSeconds date) in *.
  assert (B1 : 0 <= Z.shiftl h 6 < 2 ^ 11)
    by (rewrite Z.shiftl_mul_pow2; lia).
  rewrite !(ToInt32_small h) by lia.
  rewrite !(ToInt32_small (Z.shiftl h 6)) by lia.
  rewrite !(ToInt32_small m) by lia.
  set (x := Z.lor (Z.shiftl h 6) m).
  assert (B2 : 0 <= x < 2 ^ 11) by (apply lor_bounds; lia).
  rewrite !(ToInt32_small x) by lia.
  assert (B3 : 0 <= Z.shiftl x 5 < 2 ^ 16)
    by (rewrite Z.shiftl_mul_pow2; lia).
  rewrite !(ToInt32_small (Z.shiftl x 5)) by lia.
  rewrite Z.quot_div_nonneg by lia.
  assert (B4 : 0 <= s / 2 < 2 ^ 16)
    by (split; [apply Z.div_pos | apply Z.div_lt_upper_bound]; lia).
  rewrite !(ToInt32_small (s / 2)) by lia.
  assert (B5 : 0 <= Z.lor (Z.shiftl x 5) (s / 2) < 2 ^ 16)
    by (apply lor_bounds; lia).
  rewrite !ToInt32_small by lia.
  split; [reflexivity | exact B5].
Qed.

Lemma dosDate_spec (date : Date) :
  validDate date ->
  dosDate date = specDate date
  /\ (1980 <= getFullYear date <= 2107 -> 0 <= specDate date < 2 ^ 16).
Proof.
  intros (_ & _ & _ & Hmo & Hd & Hy).
  unfold dosDate, specDate, JS.shl, JS.or.
  change (4 mod 32) with 4. change (5 mod 32) with 5.
  set (y := getFullYear date - 1980) in *.
  set (mo := getMonth date + 1) in *. set (d := getDate date) in *.
  assert (B1 : - 2 ^ 23 <= Z.shiftl y 4 < 2 ^ 23)
    by (rewrite Z.shiftl_mul_pow2; lia).
  rewrite !(ToInt32_small y) by lia.
  rewrite !(ToInt32_small (Z.shiftl y 4)) by lia.
  rewrite !(ToInt32_small mo) by lia.
  set (x := Z.lor (Z.shiftl y 4) mo).
  assert (B2 : - 2 ^ 23 <= x < 2 ^ 23) by (apply lor_range; lia).
  rewrite !(ToInt32_small x) by lia.
  assert (B3 : - 2 ^ 28 <= Z.shiftl x 5 < 2 ^ 28)
    by (rewrite Z.shiftl_mul_pow2; lia).
  rewrite !(ToInt32_small (Z.shiftl x 5)) by lia.
  rewrite !(ToInt32_small d) by lia.
  assert (B4 : - 2 ^ 28 <= Z.lor (Z.shiftl x 5) d < 2 ^ 28)
    by (apply lor_range; lia).
  rewrite !ToInt32_small by lia.
  split; [reflexivity|]. intros Hdos.
  assert (C1 : 0 <= Z.shiftl y 4 < 2 ^ 11)
    by (rewrite Z.shiftl_mul_pow2; lia).
  assert (C2 : 0 <= x < 2 ^ 11) by (apply lor_bounds; lia).
  assert (C3 : 0 <= Z.shiftl x 5 < 2 ^ 16)
    by (rewrite Z.shiftl_mul_pow2; lia).
  apply lor_bounds; lia.
Qed.

(** C4, as the code has it: for every timestamp a [Date] can hold, bytes
    6-7 of the header are the documented packing of the time,
    [((hour<<6 | minute)<<5) | (second/2)], and bytes 8-9 the documented
    packing of the day, [(((year-1980)<<4 | month)<<5) | day] with the month
    counted from 1, each stored as 16 bits in little-endian order.  The time
    field reads back as the value of the formula for every timestamp.  The
    date field reads back as the value of the formula modulo 2^16, and that
    is the value of the formula exactly when the year is 1980 to 2107. *)
Theorem dos_time_and_date now name reader cfg options (w w' : Writer)
    (fe : FileEntry.t) :
  validDate (entryDate now options) ->
  createFileEntry now name reader cfg options w = (w', OK fe) ->
  slice (FileEntry.headerArray fe) 6 2
  = le_bytes 2 (specTime (entryDate now options))
  /\ slice (FileEntry.headerArray fe) 8 2
     = le_bytes 2 (specDate (entryDate now options))
  /\ le_value (slice (FileEntry.headerArray fe) 6 2)
     = specTime (entryDate now options)
  /\ le_value (slice (FileEntry.headerArray fe) 8 2)
     = specDate (entryDate now options) mod 2 ^ 16
  /\ (le_value (slice (FileEntry.headerArray fe) 8 2)
      = specDate (entryDate now options)
      <-> 1980 <= getFullYear (entryDate now options) <= 2107).
Proof.
  intros Hv Hrun. rewrite createFileEntry_eq in Hrun.
  destruct (encodeUTF8 name) as [filename|]; [|discriminate].
  destruct (encodeUTF8 _) as [comment|]; [|discriminate].
  destruct (processContent _ _ _ _) as [w1 [processed|]]; [|discriminate].
  injection Hrun as _ <-. cbn [encodedEntry FileEntry.headerArray].
  destruct (dosTime_spec _ Hv) as [Et Bt].
  destruct (dosDate_spec _ Hv) as [Ed _].
  unfold headerBytes. rewrite Et, Ed.
  rewrite (slice_at (versionBytes options) (le_bytes 2 (specTime _)) _ 6 2)
    by (rewrite ?versionBytes_length; reflexivity).
  rewrite (app_assoc (versionBytes options)).
  rewrite (slice_at _ (le_bytes 2 (specDate _)) _ 8 2)
    by (rewrite ?length_app, ?versionBytes_length; reflexivity).
  split; [reflexivity|]. split; [reflexivity|].
  split; [apply le_value_le_bytes_small; auto|].
  rewrite le_value_bytes. change (256 ^ Z.of_nat 2) with (2 ^ 16).
  split; [reflexivity|].
  rewrite (specDate_sum _ Hv).
  destruct Hv as (_ & _ & _ & Hmo & Hd & _).
  rewrite Z.mod_small_iff by lia. lia.
Qed.

End DosFields.

Lemma dos_time_and_date_witness :
  slice (FileEntry.headerArray juneEntry) 6 2 = le_bytes 2 (specTime june15)
  /\ slice (FileEntry.headerArray juneEntry) 8 2
     = le_bytes 2 (specDate june15)
  /\ le_value (slice (FileEntry.headerArray juneEntry) 6 2) = specTime june15
  /\ le_value (slice (FileEntry.headerArray juneEntry) 8 2)
     = specDate june15 mod 2 ^ 16
  /\ (le_value (slice (FileEntry.headerArray juneEntry) 8 2)
      = specDate june15
      <-> 1980 <= getFullYear june15 <= 2107).
Proof.
  apply (dos_time_and_date (C := StoreOnly) june15 a_txt None noConfig
           plainOptions
           newUint8ArrayWriter
           (fst (createFileEntry june15 a_txt None noConfig plainOptions
                   newUint8ArrayWriter))).
  - unfold validDate. simpl. lia.
  - vm_compute. reflexivity.
Defined.

(** On 2023-06-15 at 10:30:45 the formulas give 21462 and 22223, and these
    are the numbers the two fields hold. *)
Example june15_packed :
  specTime june15 = 21462 /\ specDate june15 = 22223
  /\ le_value (slice (FileEntry.headerArray juneEntry) 6 2) = 21462
  /\ le_value (slice (FileEntry.headerArray juneEntry) 8 2) = 22223.
Proof. repeat split; reflexivity. Qed.

(** The date field is not the value of the formula for every timestamp.
    On 2108-01-01 the formula gives 65569, which 16 bits cannot hold: the
    field is written as [21 00] and reads 33.  On 1970-01-01 the formula
    gives -5087 and the field, [21 ec], reads 60449. *)
Lemma dos_date_counterexample :
  (validDate jan2108
   /\ specDate jan2108 = 65569
   /\ exists w' fe,
        createFileEntry jan2108 a_txt None noConfig plainOptions
          newUint8ArrayWriter = (w', OK fe)
        /\ slice (FileEntry.headerArray fe) 8 2 = [0x21; 0x00]
        /\ le_value (slice (FileEntry.headerArray fe) 8 2) = 33
        /\ le_value (slice (FileEntry.headerArray fe) 8 2)
           <> specDate jan2108)
  /\ (validDate jan1970
      /\ specDate jan1970 = -5087
      /\ exists w' fe,
           createFileEntry jan1970 a_txt None noConfig plainOptions
             newUint8ArrayWriter = (w', OK fe)
           /\ slice (FileEntry.headerArray fe) 8 2 = [0x21; 0xec]
           /\ le_value (slice (FileEntry.headerArray fe) 8 2) = 60449
           /\ le_value (slice (FileEntry.headerArray fe) 8 2)
              <> specDate jan1970).
Proof.
  split; (split; [unfold validDate; simpl; lia|]);
    (split; [reflexivity|]); eexists; eexists;
    (split; [vm_compute; reflexivity|]);
    (split; [reflexivity|]); (split; [reflexivity | discriminate]).
Qed.

(** ** The footer *)

Section Footer.

Context {C : Collaborators}.

Lemma processContent_none cfg options (w : Writer) :
  processContent None cfg options w = (w, OK None).
Proof. reflexivity. Qed.

Lemma processContent_some r cfg options (w w1 : Writer) processed :
  processContent (Some r) cfg options w = (w1, OK processed) ->
  exists r' result, processed = Some (r', result).
Proof.
  unfold processContent, bind, lift, ret.
  destruct (reader_init r) as [r'|]; [|discriminate].
  destruct (createCodec _ _) as [codec|]; [|discriminate].
  destruct (processData _ _ _ _ _ _) as [bytes [result|]]; [|discriminate].
  intros [= _ <-]. eauto.
Qed.

(** C5, as the code has it: the footer is the last thing the encoder
    writes, 16 bytes that begin with the signature [50 4b 07 08].  With no
    content source all twelve bytes after the signature are zero.  With a
    content source the compressed length and the original size are stored,
    32 bits each in little-endian order, whether or not there is a password;
    the checksum is stored when there is no password and the pipeline
    returned one, and is left zero otherwise. *)
Theorem footer_fields now name reader cfg options (w w' : Writer)
    (fe : FileEntry.t) :
  createFileEntry now name reader cfg options w = (w', OK fe) ->
  exists filename w1 processed footer,
    processContent reader cfg options
      (Writer_writeUint8Array w (localHeader now options filename))
    = (w1, OK processed)
    /\ data w' = data w1 ++ footer
    /\ length footer = 16%nat
    /\ slice footer 0 4 = [0x50; 0x4b; 0x07; 0x08]
    /\ match processed with
       | None => reader = None /\ slice footer 4 12 = repeat 0 12
       | Some (r, result) =>
           reader <> None
           /\ slice footer 4 4
              = le_bytes 4 (if hasPassword options then 0
                            else match signature result with
                                 | Some sig => sig
                                 | None => 0
                                 end)
           /\ slice footer 8 4 = le_bytes 4 (resultLength result)
           /\ slice footer 12 4 = le_bytes 4 (reader_size r)
       end.
Proof.
  intros Hrun. rewrite createFileEntry_eq in Hrun.
  destruct (encodeUTF8 name) as [filename|]; [|discriminate].
  destruct (encodeUTF8 _) as [comment|]; [|discriminate].
  destruct (processContent _ _ _ _) as [w1 [processed|]] eqn:Hp;
    [|discriminate].
  injection Hrun as <- _.
  exists filename, w1, processed, (footerBytes options processed).
  split; [exact Hp|]. split; [reflexivity|].
  split; [unfold footerBytes; now rewrite !length_app, !le_bytes_length|].
  split; [reflexivity|].
  destruct processed as [[r result]|].
  - split.
    + destruct reader; [discriminate|].
      rewrite processContent_none in Hp. discriminate.
    + unfold footerBytes, checksumField, compressedSizeField, sizeField.
      destruct (hasPassword options); repeat split; reflexivity.
  - split; [|reflexivity]. destruct reader as [r|]; [|reflexivity].
    apply processContent_some in Hp. destruct Hp as (? & ? & ?).
    discriminate.
Qed.

End Footer.

(** C5 as stated fails: with the password "secret" and three bytes of
    content, the compressed length and the original size in the footer are
    3, not zero. *)
Lemma footer_encrypted_counterexample :
  hasPassword secretOptions = true
  /\ exists w' fe,
       createFileEntry june15 a_txt (Some (Content [1; 2; 3])) noConfig
         secretOptions newUint8ArrayWriter = (w', OK fe)
       /\ slice (data w') (length (data w') - 16) 16
          = [0x50; 0x4b; 0x07; 0x08; 0; 0; 0; 0; 3; 0; 0; 0; 3; 0; 0; 0]
       /\ slice (data w') (length (data w') - 16 + 8) 8 <> repeat 0 8.
Proof.
  split; [reflexivity|]. eexists. eexists.
  split; [vm_compute; reflexivity|].
  split; [reflexivity | discriminate].
Qed.

Lemma footer_fields_witness :
  exists filename w1 processed footer,
    processContent (Some (Content [1; 2; 3])) noConfig secretOptions
      (Writer_writeUint8Array newUint8ArrayWriter
         (localHeader june15 secretOptions filename))
    = (w1, OK processed)
    /\ data (fst (createFileEntry june15 a_txt (Some (Content [1; 2; 3]))
                    noConfig
                    secretOptions newUint8ArrayWriter))
       = data w1 ++ footer
    /\ length footer = 16%nat
    /\ slice footer 0 4 = [0x50; 0x4b; 0x07; 0x08]
    /\ match processed with
       | None => Some (Content [1; 2; 3]) = None
                 /\ slice footer 4 12 = repeat 0 12
       | Some (r, result) =>
           Some (Content [1; 2; 3]) <> None
           /\ slice footer 4 4
              = le_bytes 4 (if hasPassword secretOptions then 0
                            else match signature result with
                                 | Some sig => sig
                                 | None => 0
                                 end)
           /\ slice footer 8 4 = le_bytes 4 (resultLength result)
           /\ slice footer 12 4 = le_bytes 4 (reader_size r)
       end.
Proof.
  eapply (footer_fields (C := StoreOnly) june15 a_txt).
  vm_compute. reflexivity.
Defined.

(** ** Directories *)

Lemma charAt_last_unit (p : str) (c : Z) :
  charAt (p ++ [c]) (len (p ++ [c]) - 1) = [c].
Proof.
  unfold charAt, len. rewrite length_app. cbn [length].
  destruct (Z.ltb_spec (Z.of_nat (length p + 1) - 1) 0); [lia|].
  replace (Z.to_nat (Z.of_nat (length p + 1) - 1)) with (length p) by lia.
  now rewrite nth_error_app2, Nat.sub_diag by lia.
Qed.

Lemma charAt_last_slash (t : str) :
  charAt t (len t - 1) = slash <-> exists prefix, t = prefix ++ slash.
Proof.
  split.
  - intros E. destruct (rev t) as [|c r] eqn:Hr;
      apply (f_equal (@rev Z)) in Hr; rewrite rev_involutive in Hr;
      simpl in Hr; subst t.
    + discriminate.
    + rewrite charAt_last_unit in E. injection E as ->. now exists (rev r).
  - intros [prefix ->]. apply charAt_last_unit.
Qed.

Lemma centralRecord_attribute (file : FileEntry.t) :
  length (FileEntry.headerArray file) = 26%nat ->
  slice (centralRecord file) 38 1
  = [if FileEntry.directory file then 0x10 else 0].
Proof.
  intros H. unfold centralRecord.
  rewrite !app_assoc. rewrite <- !(app_assoc _ _ (le_bytes 4 _)).
  rewrite <- !(app_assoc _ _ (FileEntry.filename file)).
  rewrite <- !(app_assoc _ _ (FileEntry.extraField file)).
  rewrite <- !(app_assoc _ _ (FileEntry.comment file)).
  erewrite slice_app_r with (k := 0%nat);
    [reflexivity | lens; rewrite H; reflexivity].
Qed.

Section Directory.

Context {C : Collaborators}.

(** The key of an entry that is not a directory is the trimmed name. *)
Lemma entryName_file (name : str) (options : Options) :
  directory options = false -> entryName name options = trim name.
Proof. intros H. unfold entryName. now rewrite H. Qed.

(** The key of a directory is the trimmed name, followed by "/" unless it
    ends in "/" already. *)
Lemma entryName_directory (name : str) (options : Options) :
  directory options = true ->
  ((forall prefix, trim name <> prefix ++ slash) ->
   entryName name options = trim name ++ slash)
  /\ ((exists prefix, trim name = prefix ++ slash) ->
      entryName name options = trim name)
  /\ exists prefix, entryName name options = prefix ++ slash.
Proof.
  intros Hd. unfold entryName, str_eqb. rewrite Hd. cbn [andb].
  destruct (str_eq_dec (charAt (trim name) (len (trim name) - 1)) slash)
    as [E|E]; cbn [negb]; rewrite charAt_last_slash in E.
  - split; [|split; [reflexivity | exact E]].
    intros H. destruct E as [prefix E]. now destruct (H prefix).
  - split; [reflexivity|]. split; [|now exists (trim name)].
    intros H. contradiction.
Qed.

(** C6: [add] with [directory: true] and no content source, for a name
    that is not yet in the archive and has no lone surrogate, as is the
    comment.  The call returns.  The entry is filed last, under a key that
    ends in "/": the trimmed name followed by "/" when the trimmed name does
    not end in "/"; its file name is the encoding of the key.  What goes to
    the sink is the header block followed at once by the 16 bytes of the
    footer, with zero in the size fields, and the length of the entry is the
    length of these two blocks.  Its record in the central directory that
    [close] writes is the last one before the trailer and has 0x10 at 38. *)
Theorem add_directory now name options (this : ZipWriter)
    (filename comment : list Z) :
  directory options = true ->
  Map_has (files this) (entryName name options) = false ->
  encodeUTF8 (entryName name options) = OK filename ->
  encodeUTF8 (entryComment options) = OK comment ->
  complete (files this) ->
  exists this' e,
    add now name None options this = (this', OK tt)
    /\ files this' = files this ++ [(entryName name options, Some e)]
    /\ (exists prefix, entryName name options = prefix ++ slash)
    /\ ((forall prefix, trim name <> prefix ++ slash) ->
        entryName name options = trim name ++ slash)
    /\ FileEntry.filename e = filename
    /\ FileEntry.directory e = true
    /\ data (writer this')
       = data (writer this)
         ++ localHeader now options filename
         ++ [0x50; 0x4b; 0x07; 0x08] ++ repeat 0 12
    /\ FileEntry.length e = len (localHeader now options filename) + 16
    /\ slice (centralRecord e) 38 1 = [0x10]
    /\ forall c cl,
         commentLength c = OK cl ->
         snd (close c this')
         = OK (data (writer this')
               ++ (flat_map centralRecord (entries (files this))
                   ++ centralRecord e
                   ++ endOfCentralDirectory (Map_size (files this'))
                        (recordsLength this') (offset this') cl)
               ++ commentBytes c).
Proof.
  intros Hd Hnew Hf Hc Hcomplete.
  destruct (entryName_directory name options Hd) as (Hn & _ & Hslash).
  pose proof (add_fresh now name None options this Hnew) as Hadd.
  cbv zeta in Hadd. set (key := entryName name options) in *.
  assert (Hres : entryResult now key None (config this) options
                 = OK (encodedEntry now options filename comment None)).
  { rewrite entryResult_eq, Hf, Hc. reflexivity. }
  assert (Hbytes : entryBytes now key None (config this) options
                   = localHeader now options filename
                     ++ [0x50; 0x4b; 0x07; 0x08] ++ repeat 0 12).
  { unfold entryBytes. rewrite createFileEntry_eq, Hf, Hc.
    rewrite processContent_none. reflexivity. }
  rewrite Hres, Hbytes in Hadd.
  set (e := FileEntry.set_offset
              (encodedEntry now options filename comment None) (offset this))
    in *.
  eexists. exists e. split; [exact Hadd|]. cbn [files writer offset].
  assert (Hh : length (FileEntry.headerArray e) = 26%nat)
    by apply headerBytes_length.
  split; [reflexivity|]. split; [exact Hslash|]. split; [exact Hn|].
  split; [reflexivity|]. split; [exact Hd|].
  split.
  { destruct (prepared_fields options this) as (_ & _ & _ & Hdata).
    cbn [Writer_writeUint8Array data]. now rewrite Hdata. }
  split.
  { unfold e.
    cbn [FileEntry.length FileEntry.set_offset encodedEntry
         compressedSizeField].
    rewrite localHeader_length. lia. }
  split.
  { rewrite (centralRecord_attribute e Hh). cbn. now rewrite Hd. }
  intros c cl Hcl. rewrite close_eq.
  - rewrite Hcl. cbn [snd set_writer writer data files offset].
    unfold directoryBytes, recordsLength. cbn [files offset].
    rewrite entries_snoc, flat_map_app. cbn [flat_map].
    rewrite app_nil_r, <- !app_assoc. reflexivity.
  - cbn [files]. apply Forall_app. split; [exact Hcomplete|].
    constructor; [|constructor]. exists e. auto.
Qed.

End Directory.

(** "docs" becomes "docs/". *)
Example entryName_docs : entryName docs directoryOptions = docs ++ slash.
Proof. reflexivity. Qed.

Lemma add_directory_witness :
  exists this' e,
    add june15 docs None directoryOptions archiveWithFile = (this', OK tt)
    /\ files this'
       = files archiveWithFile
         ++ [(entryName docs directoryOptions, Some e)]
    /\ (exists prefix, entryName docs directoryOptions = prefix ++ slash)
    /\ ((forall prefix, trim docs <> prefix ++ slash) ->
        entryName docs directoryOptions = trim docs ++ slash)
    /\ FileEntry.filename e = docs ++ slash
    /\ FileEntry.directory e = true
    /\ data (writer this')
       = data (writer archiveWithFile)
         ++ localHeader june15 directoryOptions (docs ++ slash)
         ++ [0x50; 0x4b; 0x07; 0x08] ++ repeat 0 12
    /\ FileEntry.length e
       = len (localHeader june15 directoryOptions (docs ++ slash)) + 16
    /\ slice (centralRecord e) 38 1 = [0x10]
    /\ forall c cl,
         commentLength c = OK cl ->
         snd (close c this')
         = OK (data (writer this')
               ++ (flat_map centralRecord (entries (files archiveWithFile))
                   ++ centralRecord e
                   ++ endOfCentralDirectory (Map_size (files this'))
                        (recordsLength this') (offset this') cl)
               ++ commentBytes c).
Proof.
  apply (add_directory (C := StoreOnly) june15 docs directoryOptions
           archiveWithFile (docs ++ slash) []).
  - reflexivity.
  - vm_compute. reflexivity.
  - vm_compute. reflexivity.
  - vm_compute. reflexivity.
  - set (fs := files archiveWithFile). vm_compute in fs. subst fs.
    constructor; [|constructor]. eexists. split; reflexivity.
Defined.

(** ** A call that fails while the entry is encoded *)

Section FailedAdd.

Context {C : Collaborators}.

(** C8, as the code has it: [add] has no handler around the encoder.
    When the name is new and encoding the entry throws, the error reaches
    the caller and the [null] put in the map under the name before the
    encoder ran stays there: the keys after the call are the keys before it
    followed by the name.  The running offset is not advanced. *)
Theorem failed_add_keeps_reservation now name reader options
    (this this' : ZipWriter) (e : error) :
  Map_has (files this) (entryName name options) = false ->
  add now name reader options this = (this', Throw e) ->
  files this' = files this ++ [(entryName name options, None)]
  /\ Map_keys (files this')
     = Map_keys (files this) ++ [entryName name options]
  /\ offset this' = offset this
  /\ entryResult now (entryName name options) reader (config this) options
     = Throw e.
Proof.
  intros Hnew Hadd. rewrite add_fresh in Hadd by exact Hnew.
  cbv zeta in Hadd.
  destruct (entryResult _ _ _ _ _) as [fe|e']; [discriminate|].
  injection Hadd as <- <-. cbn [files offset].
  unfold Map_keys. rewrite map_app. auto.
Qed.

End FailedAdd.

(** C8 as stated fails: the pipeline throws on the content of "a.txt";
    before the call the archive has no key, after it the key "a.txt" is
    there, bound to [null]. *)
Lemma failed_add_counterexample :
  snd (add june15 a_txt (Some (Broken [] 1)) plainOptions emptyArchive)
  = Throw (CollaboratorError 1)
  /\ Map_keys (files emptyArchive) = []
  /\ files (fst (add june15 a_txt (Some (Broken [] 1)) plainOptions
                   emptyArchive))
     = [(a_txt, None)]
  /\ Map_keys (files (fst (add june15 a_txt (Some (Broken [] 1))
                             plainOptions emptyArchive)))
     <> Map_keys (files emptyArchive).
Proof.
  split; [vm_compute; reflexivity|]. split; [reflexivity|].
  split; [vm_compute; reflexivity|]. vm_compute. discriminate.
Qed.

Lemma failed_add_keeps_reservation_witness :
  files (fst (add june15 a_txt (Some (Broken [] 1)) plainOptions
                emptyArchive))
  = files emptyArchive ++ [(entryName a_txt plainOptions, None)]
  /\ Map_keys (files (fst (add june15 a_txt (Some (Broken [] 1))
                             plainOptions emptyArchive)))
     = Map_keys (files emptyArchive) ++ [entryName a_txt plainOptions]
  /\ offset (fst (add june15 a_txt (Some (Broken [] 1)) plainOptions
                    emptyArchive))
     = offset emptyArchive
  /\ entryResult june15 (entryName a_txt plainOptions)
       (Some (Broken [] 1)) (config emptyArchive) plainOptions
     = Throw (CollaboratorError 1).
Proof.
  apply (failed_add_keeps_reservation (C := StoreOnly) june15 a_txt
           (Some (Broken [] 1)) plainOptions emptyArchive).
  - reflexivity.
  - vm_compute. reflexivity.
Defined.

(** ** Buffered writes *)

Section Buffered.

Context {C : Collaborators}.

Lemma createFileEntry_bufferedWrite b now name reader cfg options
    (w : Writer) :
  createFileEntry now name reader cfg (withBufferedWrite b options) w
  = createFileEntry now name reader cfg options w.
Proof. reflexivity. Qed.

(** With or without [bufferedWrite], a call throws the same error or
    returns, and leaves the same map and the same running offset. *)
Lemma bufferedWrite_same_outcome now name reader options (this : ZipWriter) :
  snd (add now name reader (withBufferedWrite true options) this)
  = snd (add now name reader (withBufferedWrite false options) this)
  /\ files (fst (add now name reader (withBufferedWrite true options) this))
     = files (fst (add now name reader (withBufferedWrite false options)
                     this))
  /\ offset (fst (add now name reader (withBufferedWrite true options) this))
     = offset (fst (add now name reader (withBufferedWrite false options)
                      this)).
Proof.
  change (entryName name (withBufferedWrite true options))
    with (entryName name options).
  destruct (Map_has (files this) (entryName name options)) eqn:Hhas.
  - rewrite !add_duplicate by exact Hhas. cbn [fst snd].
    destruct (prepared_fields (withBufferedWrite false options) this)
      as (-> & -> & _).
    auto.
  - rewrite !add_fresh by exact Hhas. cbv zeta.
    unfold entryResult, entryBytes.
    rewrite !createFileEntry_bufferedWrite.
    change (entryName name (withBufferedWrite _ options))
      with (entryName name options).
    destruct (snd (createFileEntry _ _ _ _ _ _)); auto.
Qed.

(** C9, for the calls that return: when [add] without [bufferedWrite]
    returns, so does the same call with [bufferedWrite]; the shared sink
    holds the same bytes after either, and the map, with the record of the
    new entry (header bytes, length, offset), and the running offset are the
    same. *)
Theorem bufferedWrite_same_bytes now name reader options
    (this this1 : ZipWriter) :
  add now name reader (withBufferedWrite false options) this
  = (this1, OK tt) ->
  exists this2,
    add now name reader (withBufferedWrite true options) this
    = (this2, OK tt)
    /\ data (writer this2) = data (writer this1)
    /\ files this2 = files this1
    /\ offset this2 = offset this1.
Proof.
  intros Hadd.
  destruct (add_returns _ _ _ _ _ _ Hadd) as (fe & Hnew & Hfe & ->).
  change (entryName name (withBufferedWrite false options))
    with (entryName name options) in *.
  unfold entryResult in Hfe.
  rewrite createFileEntry_bufferedWrite in Hfe.
  eexists. rewrite add_fresh by exact Hnew. cbv zeta.
  change (entryName name (withBufferedWrite true options))
    with (entryName name options).
  unfold entryResult, entryBytes. rewrite !createFileEntry_bufferedWrite.
  rewrite Hfe. split; [reflexivity|]. cbn [writer files offset data].
  destruct (prepared_fields (withBufferedWrite false options) this)
    as (_ & _ & _ & Hd).
  unfold Writer_writeUint8Array. cbn [data]. rewrite Hd. auto.
Qed.

End Buffered.

(** C9 as stated fails for a call that throws: the pipeline fails on the
    content of "a.txt"; without [bufferedWrite] the 35 bytes of the header
    block are on the shared sink, with [bufferedWrite] the shared sink is
    empty. *)
Lemma bufferedWrite_counterexample :
  snd (add june15 a_txt (Some (Broken [] 1))
         (withBufferedWrite false plainOptions) emptyArchive)
  = Throw (CollaboratorError 1)
  /\ snd (add june15 a_txt (Some (Broken [] 1))
            (withBufferedWrite true plainOptions) emptyArchive)
     = Throw (CollaboratorError 1)
  /\ data (writer (fst (add june15 a_txt (Some (Broken [] 1))
                          (withBufferedWrite false plainOptions)
                          emptyArchive)))
     = [80; 75; 3; 4; 20; 0; 8; 8; 8; 0; 214; 83; 207; 86; 0; 0; 0; 0; 0; 0;
        0; 0; 0; 0; 0; 0; 5; 0; 0; 0; 97; 46; 116; 120; 116]
  /\ data (writer (fst (add june15 a_txt (Some (Broken [] 1))
                          (withBufferedWrite true plainOptions)
                          emptyArchive)))
     = [].
Proof. repeat split; vm_compute; reflexivity. Qed.

Lemma bufferedWrite_same_bytes_witness :
  exists this2,
    add june15 a_txt (Some (Content [1; 2; 3]))
      (withBufferedWrite true plainOptions) emptyArchive
    = (this2, OK tt)
    /\ data (writer this2)
       = data (writer (fst (add june15 a_txt (Some (Content [1; 2; 3]))
                              (withBufferedWrite false plainOptions)
                              emptyArchive)))
    /\ files this2
       = files (fst (add june15 a_txt (Some (Content [1; 2; 3]))
                       (withBufferedWrite false plainOptions) emptyArchive))
    /\ offset this2
       = offset (fst (add june15 a_txt (Some (Content [1; 2; 3]))
                        (withBufferedWrite false plainOptions) emptyArchive)).
Proof.
  apply (bufferedWrite_same_bytes (C := StoreOnly)).
  vm_compute. reflexivity.
Defined.

(** ** The extra field of an encrypted entry *)

Section Encrypted.

Context {C : Collaborators}.

Lemma entryExtraField_encrypted (options : Options) :
  hasPassword options = true ->
  entryExtraField options
  = [0x01; 0x99; 0x07; 0x00; 0x02; 0x00; 0x41; 0x45; 0x03;
     if isCompressed options then 0x08 else 0x00; 0x00].
Proof.
  intros H. unfold entryExtraField. rewrite H.
  destruct (isCompressed options); reflexivity.
Qed.

(** C10: with a non-empty password the entry's extra field is the 11
    bytes [01 99 07 00 02 00 41 45 03 00 00], identifier 0x9901, as they
    are when the entry is a directory or its level is 0, and with 0x08 at
    index 9 when the entry is not a directory and its level is not 0, absent
    included; the [extraField] of the caller has no effect: whatever it is,
    absent included, the encoder writes the same bytes to the sink and
    returns the same record. *)
Theorem encrypted_extra_field now name reader cfg options (w w' : Writer)
    (fe : FileEntry.t) (p : str) :
  password options = Some p -> p <> [] ->
  createFileEntry now name reader cfg options w = (w', OK fe) ->
  (directory options = true \/ level options = Some 0 ->
   FileEntry.extraField fe
   = [0x01; 0x99; 0x07; 0x00; 0x02; 0x00; 0x41; 0x45; 0x03; 0x00; 0x00])
  /\ (directory options = false -> level options <> Some 0 ->
      FileEntry.extraField fe
      = [0x01; 0x99; 0x07; 0x00; 0x02; 0x00; 0x41; 0x45; 0x03; 0x08; 0x00])
  /\ length (FileEntry.extraField fe) = 11%nat
  /\ le_value (slice (FileEntry.extraField fe) 0 2) = 0x9901
  /\ slice (FileEntry.headerArray fe) 24 2 = le_bytes 2 11
  /\ forall e,
       createFileEntry now name reader cfg (withExtraField e options) w
       = (w', OK fe).
Proof.
  intros Hpw Hne Hrun.
  assert (Hp : hasPassword options = true).
  { unfold hasPassword. rewrite Hpw.
    destruct p; [contradiction | reflexivity]. }
  assert (Hany : forall e,
             createFileEntry now name reader cfg (withExtraField e options) w
             = createFileEntry now name reader cfg options w).
  { intros e. rewrite !createFileEntry_eq.
    change (entryComment (withExtraField e options))
      with (entryComment options).
    assert (Hx : entryExtraField (withExtraField e options)
                 = entryExtraField options).
    { unfold entryExtraField.
      change (hasPassword (withExtraField e options))
        with (hasPassword options).
      now rewrite Hp. }
    unfold localHeader, encodedEntry, footerBytes. rewrite Hx.
    reflexivity. }
  pose proof Hrun as Hrun0. rewrite createFileEntry_eq in Hrun.
  destruct (encodeUTF8 name) as [filename|]; [|discriminate].
  destruct (encodeUTF8 _) as [comment|]; [|discriminate].
  destruct (processContent _ _ _ _) as [w1 [processed|]] eqn:Hproc;
    [|discriminate].
  injection Hrun as Hw Hfe.
  assert (Hextra : FileEntry.extraField fe
                   = [0x01; 0x99; 0x07; 0x00; 0x02; 0x00; 0x41; 0x45; 0x03;
                      if isCompressed options then 0x08 else 0x00; 0x00]).
  { rewrite <- Hfe. cbn [encodedEntry FileEntry.extraField].
    exact (entryExtraField_encrypted options Hp). }
  split.
  { intros H. assert (Hc : isCompressed options = false).
    { unfold isCompressed. destruct H as [-> | ->];
        [apply andb_false_r | reflexivity]. }
    rewrite Hextra, Hc. reflexivity. }
  split.
  { intros Hd Hl. assert (Hc : isCompressed options = true).
    { unfold isCompressed. rewrite Hd.
      destruct (level options) as [l|]; [|reflexivity].
      destruct (Z.eqb_spec l 0); [subst; contradiction | reflexivity]. }
    rewrite Hextra, Hc. reflexivity. }
  rewrite Hextra.
  split; [reflexivity|]. split; [reflexivity|]. split.
  - rewrite <- Hfe. cbn [encodedEntry FileEntry.headerArray].
    rewrite (entryExtraField_encrypted options Hp).
    unfold headerBytes, versionBytes. rewrite Hp. reflexivity.
  - intros e. rewrite Hany. exact Hrun0.
Qed.

End Encrypted.

Lemma encrypted_extra_field_witness :
  (directory storedSecretOptions = true
   \/ level storedSecretOptions = Some 0 ->
   FileEntry.extraField storedSecretEntry
   = [0x01; 0x99; 0x07; 0x00; 0x02; 0x00; 0x41; 0x45; 0x03; 0x00; 0x00])
  /\ (directory storedSecretOptions = false ->
      level storedSecretOptions <> Some 0 ->
      FileEntry.extraField storedSecretEntry
      = [0x01; 0x99; 0x07; 0x00; 0x02; 0x00; 0x41; 0x45; 0x03; 0x08; 0x00])
  /\ length (FileEntry.extraField storedSecretEntry) = 11%nat
  /\ le_value (slice (FileEntry.extraField storedSecretEntry) 0 2) = 0x9901
  /\ slice (FileEntry.headerArray storedSecretEntry) 24 2 = le_bytes 2 11
  /\ forall e,
       createFileEntry june15 a_txt (Some (Content [1; 2; 3])) noConfig
         (withExtraField e storedSecretOptions) newUint8ArrayWriter
       = (fst (createFileEntry june15 a_txt (Some (Content [1; 2; 3]))
                 noConfig storedSecretOptions newUint8ArrayWriter),
          OK storedSecretEntry).
Proof.
  apply (encrypted_extra_field (C := StoreOnly) june15 a_txt
           (Some (Content [1; 2; 3])) noConfig storedSecretOptions
           newUint8ArrayWriter _ _ secret).
  - reflexivity.
  - discriminate.
  - vm_compute. reflexivity.
Defined.

(** The three cases on the password "secret", run: level 0 leaves index 9
    at 0x00, so does a directory, and an entry with no level that is not a
    directory has 0x08 there; the bytes [9, 9] that the caller passed as extra
    field are in none of the three. *)
Example encrypted_extra_field_cases :
  (exists w' fe,
     createFileEntry june15 a_txt (Some (Content [1; 2; 3])) noConfig
       storedSecretOptions newUint8ArrayWriter = (w', OK fe)
     /\ FileEntry.extraField fe
        = [0x01; 0x99; 0x07; 0x00; 0x02; 0x00; 0x41; 0x45; 0x03; 0x00; 0x00])
  /\ (exists w' fe,
        createFileEntry june15 docs None noConfig
          secretDirectoryOptions newUint8ArrayWriter = (w', OK fe)
        /\ FileEntry.extraField fe
           = [0x01; 0x99; 0x07; 0x00; 0x02; 0x00; 0x41; 0x45; 0x03; 0x00;
              0x00])
  /\ (exists w' fe,
        createFileEntry june15 a_txt (Some (Content [1; 2; 3])) noConfig
          secretOptions newUint8ArrayWriter = (w', OK fe)
        /\ FileEntry.extraField fe
           = [0x01; 0x99; 0x07; 0x00; 0x02; 0x00; 0x41; 0x45; 0x03; 0x08;
              0x00]).
Proof.
  repeat split; eexists; eexists; (split; [vm_compute; reflexivity|]);
    reflexivity.
Qed.

(** * Further properties of the writer *)

(** ** Names are taken for good *)

Section Reservation.

Context {C : Collaborators}.

Lemma Map_has_snoc {V : Type} (m : Map V) (k : str) (v : V) :
  Map_has (m ++ [(k, v)]) k = true.
Proof.
  induction m as [|[k' v'] m IH]; simpl.
  - destruct (str_eq_dec k k); [reflexivity | contradiction].
  - destruct (str_eq_dec k' k); [reflexivity | exact IH].
Qed.

(** Whatever a call of [add] does, its key is in the map afterwards. *)
Lemma add_key_present now name reader options (this : ZipWriter) :
  Map_has (files (fst (add now name reader options this)))
    (entryName name options) = true.
Proof.
  destruct (Map_has (files this) (entryName name options)) eqn:Hhas.
  - rewrite add_duplicate by exact Hhas. cbn [fst].
    destruct (prepared_fields options this) as (-> & _). exact Hhas.
  - rewrite add_fresh by exact Hhas. cbv zeta.
    destruct (entryResult _ _ _ _ _); cbn [fst files]; apply Map_has_snoc.
Qed.

(** X1: a key can be added at most once.  After any call of [add],
    whether it returned or threw, and whatever it threw, every later call
    whose name gives the same key throws the duplicate-name error. *)
Theorem add_twice_is_duplicate now1 now2 name1 name2 reader1 reader2
    options1 options2 (this : ZipWriter) :
  entryName name2 options2 = entryName name1 options1 ->
  snd (add now2 name2 reader2 options2
         (fst (add now1 name1 reader1 options1 this)))
  = Throw ERR_DUPLICATED_NAME.
Proof.
  intros Hk. rewrite add_duplicate; [reflexivity|].
  rewrite Hk. apply add_key_present.
Qed.

(** X2: [close] on an archive that holds a [null] entry, as a call of
    [add] that threw while encoding leaves it, throws a [TypeError] before
    anything is written: the writer is as it was. *)
Theorem close_with_pending_entry (this : ZipWriter) (key : str)
    (comment : option (list Z)) :
  In (key, None) (files this) ->
  close comment this = (this, Throw TypeError).
Proof.
  intros Hin. unfold close, bind, directoryData.
  assert (H : forall acc, directoryLength (files this) acc = Throw TypeError).
  { induction (files this) as [|[k [file|]] fs IH]; intros acc.
    - destruct Hin.
    - destruct Hin as [Heq|Hin]; [discriminate|].
      cbn [directoryLength]. exact (IH Hin _).
    - reflexivity. }
  rewrite H. reflexivity.
Qed.

End Reservation.

Lemma add_twice_is_duplicate_witness :
  snd (add june15 (a_txt ++ [32]) None plainOptions
         (fst (add june15 a_txt (Some (Broken [] 1)) plainOptions
                 emptyArchive)))
  = Throw ERR_DUPLICATED_NAME.
Proof.
  apply (add_twice_is_duplicate (C := StoreOnly)). reflexivity.
Defined.

Lemma close_with_pending_entry_witness :
  close (Some [1; 2]) failedArchive = (failedArchive, Throw TypeError).
Proof.
  apply (close_with_pending_entry (C := StoreOnly) failedArchive a_txt).
  vm_compute. auto.
Defined.

(** ** What reaches the shared sink *)

Section SharedSink.

Context {C : Collaborators}.

(** X3: [add] only appends to the shared sink: whatever the outcome, the
    bytes that were on the sink before the call are still there, first and
    unchanged, after it. *)
Theorem add_appends_only now name reader options (this : ZipWriter) :
  exists suffix,
    data (writer (fst (add now name reader options this)))
    = data (writer this) ++ suffix.
Proof.
  destruct (prepared_fields options this) as (_ & _ & _ & Hd).
  destruct (Map_has (files this) (entryName name options)) eqn:Hhas.
  - rewrite add_duplicate by exact Hhas. exists []. cbn [fst].
    now rewrite Hd, app_nil_r.
  - rewrite add_fresh by exact Hhas. cbv zeta.
    destruct (entryResult _ _ _ _ _); cbn [fst writer].
    + eexists. cbn [Writer_writeUint8Array data]. now rewrite Hd.
    + destruct (bufferedWrite options).
      * exists []. now rewrite app_nil_r.
      * eexists. cbn [Writer_writeUint8Array data]. now rewrite Hd.
Qed.

(** X4: with [bufferedWrite], a call of [add] that throws, for whatever
    reason, leaves the shared sink exactly as it was, bytes and
    initialization alike; the entry was encoded on the private buffer
    only. *)
Theorem buffered_failure_leaves_sink now name reader options
    (this : ZipWriter) (e : error) :
  bufferedWrite options = true ->
  snd (add now name reader options this) = Throw e ->
  writer (fst (add now name reader options this)) = writer this.
Proof.
  intros Hb.
  destruct (Map_has (files this) (entryName name options)) eqn:Hhas.
  - rewrite add_duplicate by exact Hhas. intros _. cbn [fst].
    unfold prepared. now rewrite Hb.
  - rewrite add_fresh by exact Hhas. cbv zeta.
    destruct (entryResult _ _ _ _ _); [discriminate|].
    intros _. cbn [fst writer]. now rewrite Hb.
Qed.

(** X5: without [bufferedWrite], [add] leaves the shared sink marked as
    initialized whatever the outcome, a duplicate name included; with
    [bufferedWrite] it never changes that mark, so a sink that was not
    initialized is written to without ever being initialized. *)
Theorem add_initializes_sink now name reader options (this : ZipWriter) :
  initialized (writer (fst (add now name reader options this)))
  = if bufferedWrite options then initialized (writer this) else true.
Proof.
  assert (Hp : initialized (writer (prepared options this))
               = if bufferedWrite options then initialized (writer this)
                 else true).
  { unfold prepared. destruct (bufferedWrite options); [reflexivity|].
    destruct (initialized (writer this)) eqn:Hi; [exact Hi | reflexivity]. }
  destruct (Map_has (files this) (entryName name options)) eqn:Hhas.
  - rewrite add_duplicate by exact Hhas. exact Hp.
  - rewrite add_fresh by exact Hhas. cbv zeta.
    destruct (entryResult _ _ _ _ _); cbn [fst writer].
    + exact Hp.
    + destruct (bufferedWrite options) eqn:Hb; [reflexivity|].
      cbn [Writer_writeUint8Array initialized]. exact Hp.
Qed.

(** X6: [close] does not finalize the writer.  When it returns, the map
    and the running offset are what they were, so a second [close] with the
    same comment returns what the first returned followed by the same
    directory and the same comment once more. *)
Theorem close_twice (this this1 : ZipWriter) (comment : option (list Z))
    (bytes : list Z) :
  complete (files this) ->
  close comment this = (this1, OK bytes) ->
  files this1 = files this
  /\ offset this1 = offset this
  /\ exists cl,
       commentLength comment = OK cl
       /\ bytes = data (writer this)
                  ++ directoryBytes this cl ++ commentBytes comment
       /\ snd (close comment this1)
          = OK (bytes ++ directoryBytes this cl ++ commentBytes comment).
Proof.
  intros Hc Hrun. rewrite close_eq in Hrun by exact Hc.
  destruct (commentLength comment) as [cl|] eqn:Hcl; [|discriminate].
  injection Hrun as <- <-. cbn [set_writer files offset].
  split; [reflexivity|]. split; [reflexivity|].
  exists cl. split; [reflexivity|]. split; [reflexivity|].
  rewrite close_eq by exact Hc. rewrite Hcl. cbn [snd writer data].
  unfold Writer_writeUint8Array. cbn [data].
  unfold directoryBytes. cbn [files offset]. reflexivity.
Qed.

End SharedSink.

Lemma buffered_failure_leaves_sink_witness :
  writer (fst (add june15 secret (Some (Broken [7] 1)) bufferedOptions
                 archiveWithFile))
  = writer archiveWithFile.
Proof.
  apply (buffered_failure_leaves_sink (C := StoreOnly) june15 secret
           (Some (Broken [7] 1)) bufferedOptions archiveWithFile
           (CollaboratorError 1)).
  - reflexivity.
  - vm_compute. reflexivity.
Defined.

Lemma close_twice_witness :
  files (fst (close (Some [1; 2]) archiveWithFile)) = files archiveWithFile
  /\ offset (fst (close (Some [1; 2]) archiveWithFile))
     = offset archiveWithFile
  /\ exists cl,
       commentLength (Some [1; 2]) = OK cl
       /\ data (writer archiveWithFile)
          ++ directoryBytes archiveWithFile 2 ++ [1; 2]
          = data (writer archiveWithFile)
            ++ directoryBytes archiveWithFile cl ++ commentBytes (Some [1; 2])
       /\ snd (close (Some [1; 2]) (fst (close (Some [1; 2]) archiveWithFile)))
          = OK ((data (writer archiveWithFile)
                 ++ directoryBytes archiveWithFile 2 ++ [1; 2])
                ++ directoryBytes archiveWithFile cl
                ++ commentBytes (Some [1; 2])).
Proof.
  apply (close_twice (C := StoreOnly) archiveWithFile).
  - set (fs := files archiveWithFile). vm_compute in fs. subst fs.
    constructor; [|constructor]. eexists. split; reflexivity.
  - vm_compute. reflexivity.
Defined.

(** ** The bytes of a name *)

Lemma byte_lor (a b : Z) : isByte a -> isByte b -> isByte (Z.lor a b).
Proof. unfold isByte. intros Ha Hb. apply (lor_bounds 8); lia. Qed.

Lemma land_63_byte (x : Z) : isByte (Z.land x 0x3F).
Proof.
  unfold isByte. change 0x3F with (Z.ones 6). rewrite Z.land_ones by lia.
  pose proof (Z.mod_pos_bound x (2 ^ 6) ltac:(lia)). lia.
Qed.

Lemma shiftr_byte (x n : Z) :
  0 <= n -> 0 <= x < 256 * 2 ^ n -> isByte (Z.shiftr x n).
Proof.
  intros Hn Hx. unfold isByte. rewrite Z.shiftr_div_pow2 by exact Hn.
  assert (0 < 2 ^ n) by (apply Z.pow_pos_nonneg; lia).
  split; [apply Z.div_pos; lia | apply Z.div_lt_upper_bound; lia].
Qed.

Lemma continuation_byte (x : Z) : isByte (Z.lor 0x80 (Z.land x 0x3F)).
Proof.
  apply byte_lor; [unfold isByte; lia | apply land_63_byte].
Qed.

Lemma OK_inj {A : Type} (a b : A) : OK a = OK b -> a = b.
Proof. now intros [= ->]. Qed.

Lemma encodeUTF8_bytes_upto (n : nat) :
  forall (s b : str),
    (length s <= n)%nat -> Forall isCodeUnit s -> encodeUTF8 s = OK b ->
    Forall isByte b
    /\ (length s <= length b)%nat /\ (length b <= 3 * length s)%nat.
Proof.
  induction n as [|n IH]; intros s b Hn Hs Hrun.
  - destruct s; [|simpl in Hn; lia]. injection Hrun as <-. auto.
  - destruct s as [|c r]; [injection Hrun as <-; auto|].
    inversion Hs as [|? ? Hc Hr]; subst. unfold isCodeUnit in Hc.
    cbn [length] in Hn. cbn [encodeUTF8] in Hrun.
    destruct (Z.ltb_spec c 0x80).
    { destruct (encodeUTF8 r) as [t|] eqn:Ht; [|discriminate].
      cbn [Err_bind] in Hrun. apply OK_inj in Hrun. subst b.
      destruct (IH r t ltac:(lia) Hr Ht) as (Hb & H1 & H2).
      split; [constructor; [unfold isByte; lia | exact Hb]|].
      cbn [length]. lia. }
    destruct (Z.ltb_spec c 0x800).
    { destruct (encodeUTF8 r) as [t|] eqn:Ht; [|discriminate].
      cbn [Err_bind] in Hrun. apply OK_inj in Hrun. subst b.
      destruct (IH r t ltac:(lia) Hr Ht) as (Hb & H1 & H2).
      split; [|cbn [length]; lia].
      constructor; [|constructor; [apply continuation_byte | exact Hb]].
      apply byte_lor; [unfold isByte; lia | apply shiftr_byte; lia]. }
    destruct (isHighSurrogate c) eqn:Hhi.
    { destruct r as [|d r']; [discriminate|].
      destruct (isLowSurrogate d) eqn:Hlo; [|discriminate].
      destruct (encodeUTF8 r') as [t|] eqn:Ht; [|discriminate].
      cbn [Err_bind] in Hrun. apply OK_inj in Hrun. subst b.
      inversion Hr as [|? ? Hd Hr']; subst.
      cbn [length] in Hn.
      destruct (IH r' t ltac:(lia) Hr' Ht) as (Hb & H1 & H2).
      split; [|cbn [length]; lia].
      unfold isHighSurrogate, isLowSurrogate in Hhi, Hlo.
      apply andb_prop in Hhi, Hlo.
      destruct Hhi as [Hc1 Hc2], Hlo as [Hd1 Hd2].
      apply Z.leb_le in Hc1, Hc2, Hd1, Hd2.
      constructor; [|repeat (constructor; [apply continuation_byte|]);
                     exact Hb].
      apply byte_lor; [unfold isByte; lia | apply shiftr_byte; lia]. }
    destruct (isLowSurrogate c); [discriminate|].
    destruct (encodeUTF8 r) as [t|] eqn:Ht; [|discriminate].
    cbn [Err_bind] in Hrun. apply OK_inj in Hrun. subst b.
    destruct (IH r t ltac:(lia) Hr Ht) as (Hb & H1 & H2).
    split; [|cbn [length]; lia].
    constructor; [|repeat (constructor; [apply continuation_byte|]);
                   exact Hb].
    apply byte_lor; [unfold isByte; lia | apply shiftr_byte; lia].
Qed.

(** X7: when [encodeUTF8] returns, on a string of 16-bit code units,
    every char code that [getBytes] collects is a byte, and there are at
    least as many of them as the string has code units and at most three
    times as many. *)
Theorem encodeUTF8_gives_bytes (s t : str) :
  Forall isCodeUnit s -> encodeUTF8 s = OK t ->
  Forall isByte (getBytes t)
  /\ (length s <= length (getBytes t))%nat
  /\ (length (getBytes t) <= 3 * length s)%nat.
Proof.
  intros Hs Hrun. rewrite getBytes_eq.
  exact (encodeUTF8_bytes_upto (length s) s t (le_n _) Hs Hrun).
Qed.

Lemma encodeUTF8_error_upto (n : nat) :
  forall (s : str) (e : error),
    (length s <= n)%nat -> encodeUTF8 s = Throw e ->
    e = URIError /\ Exists (fun c => isSurrogate c = true) s.
Proof.
  induction n as [|n IH]; intros s e Hn Hrun.
  - destruct s; [discriminate | simpl in Hn; lia].
  - destruct s as [|c r]; [discriminate|].
    cbn [length] in Hn. cbn [encodeUTF8] in Hrun. unfold isSurrogate.
    assert (Hrec : forall r' (k : str -> str),
               (length r' <= n)%nat ->
               (try t <- encodeUTF8 r'; OK (k t)) = Throw e ->
               e = URIError /\ Exists (fun c => isSurrogate c = true) r').
    { intros r' k Hl Hk. destruct (encodeUTF8 r') eqn:Ht; [discriminate|].
      injection Hk as ->. exact (IH r' e Hl Ht). }
    destruct (c <? 0x80).
    { destruct (Hrec r _ ltac:(lia) Hrun). auto. }
    destruct (c <? 0x800).
    { destruct (Hrec r _ ltac:(lia) Hrun). auto. }
    destruct (isHighSurrogate c) eqn:Hhi.
    { assert (Hc : Exists (fun c => isSurrogate c = true) (c :: r))
        by (constructor; unfold isSurrogate; now rewrite Hhi).
      destruct r as [|d r']; [injection Hrun as <-; auto|].
      destruct (isLowSurrogate d); [|injection Hrun as <-; auto].
      cbn [length] in Hn.
      destruct (Hrec r' _ ltac:(lia) Hrun) as [He _]. auto. }
    destruct (isLowSurrogate c) eqn:Hlo.
    { injection Hrun as <-. split; [reflexivity|].
      constructor. unfold isSurrogate. now rewrite Hlo, orb_true_r. }
    destruct (Hrec r _ ltac:(lia) Hrun). auto.
Qed.

Lemma encodeUTF8_error (s : str) (e : error) :
  encodeUTF8 s = Throw e -> e = URIError.
Proof.
  intros H. exact (proj1 (encodeUTF8_error_upto (length s) s e (le_n _) H)).
Qed.

(** X8: [encodeUTF8] throws nothing but a [URIError], and only on a
    string that contains a surrogate code unit: a name free of surrogates
    is always encoded. *)
Theorem encodeUTF8_throws_on_surrogates_only (s : str) (e : error) :
  encodeUTF8 s = Throw e ->
  e = URIError /\ Exists (fun c => isSurrogate c = true) s.
Proof. exact (encodeUTF8_error_upto (length s) s e (le_n _)). Qed.

(** X9: a name made of ASCII code units is stored as it is: its bytes
    are its code units. *)
Theorem encodeUTF8_ascii (s : str) :
  Forall (fun c => c < 0x80) s ->
  (try t <- encodeUTF8 s; OK (getBytes t)) = OK s.
Proof.
  intros H. assert (E : encodeUTF8 s = OK s).
  { induction H as [|c r Hc Hr IH]; [reflexivity|].
    cbn [encodeUTF8]. destruct (Z.ltb_spec c 0x80); [|lia].
    now rewrite IH. }
  rewrite E. cbn [Err_bind]. now rewrite getBytes_eq.
Qed.

Lemma encodeUTF8_gives_bytes_witness :
  Forall isByte (getBytes accentedBytes)
  /\ (length accented <= length (getBytes accentedBytes))%nat
  /\ (length (getBytes accentedBytes) <= 3 * length accented)%nat.
Proof.
  apply (encodeUTF8_gives_bytes accented).
  - unfold accented, isCodeUnit. repeat constructor; lia.
  - vm_compute. reflexivity.
Defined.

Lemma encodeUTF8_throws_on_surrogates_only_witness :
  URIError = URIError
  /\ Exists (fun c => isSurrogate c = true) [0x61; 0xDC00; 0x62].
Proof.
  apply (encodeUTF8_throws_on_surrogates_only [0x61; 0xDC00; 0x62]).
  vm_compute. reflexivity.
Defined.

Lemma encodeUTF8_ascii_witness :
  (try t <- encodeUTF8 a_txt; OK (getBytes t)) = OK a_txt.
Proof.
  apply encodeUTF8_ascii. unfold a_txt. repeat constructor.
Defined.

(** ** Keys *)

Lemma trimStart_idem (s : str) : trimStart (trimStart s) = trimStart s.
Proof.
  induction s as [|c r IH]; [reflexivity|]. cbn [trimStart].
  destruct (isWhiteSpace c) eqn:Hc; [exact IH|].
  cbn [trimStart]. now rewrite Hc.
Qed.

Lemma trimStart_head (s : str) :
  trimStart s = []
  \/ exists c r, trimStart s = c :: r /\ isWhiteSpace c = false.
Proof.
  induction s as [|c r IH]; [now left|]. cbn [trimStart].
  destruct (isWhiteSpace c) eqn:Hc; [exact IH|]. right. eauto.
Qed.

Lemma trimStart_app (l r : str) (c : Z) :
  isWhiteSpace c = false ->
  trimStart (l ++ c :: r) = trimStart l ++ c :: r.
Proof.
  intros Hc. induction l as [|x l IH]; cbn [app trimStart].
  - now rewrite Hc.
  - destruct (isWhiteSpace x); [exact IH | reflexivity].
Qed.

Lemma trimEnd_cons (c : Z) (r : str) :
  isWhiteSpace c = false -> trimEnd (c :: r) = c :: trimEnd r.
Proof.
  intros Hc. unfold trimEnd. cbn [rev].
  rewrite (trimStart_app _ [] c Hc), rev_app_distr. reflexivity.
Qed.

Lemma trimEnd_snoc (l : str) (c : Z) :
  isWhiteSpace c = false -> trimEnd (l ++ [c]) = l ++ [c].
Proof.
  intros Hc. unfold trimEnd. rewrite rev_app_distr. cbn [rev app trimStart].
  rewrite Hc. cbn [rev]. now rewrite rev_involutive.
Qed.

Lemma trimEnd_idem (s : str) : trimEnd (trimEnd s) = trimEnd s.
Proof.
  unfold trimEnd. now rewrite rev_involutive, trimStart_idem.
Qed.

Lemma trim_idem (s : str) : trim (trim s) = trim s.
Proof.
  unfold trim. destruct (trimStart_head s) as [E | (c & r & E & Hc)];
    rewrite E.
  - reflexivity.
  - rewrite (trimEnd_cons c r Hc). cbn [trimStart]. rewrite Hc.
    now rewrite (trimEnd_cons c _ Hc), trimEnd_idem.
Qed.

Lemma trim_slash (s : str) : trim (trim s ++ slash) = trim s ++ slash.
Proof.
  unfold trim. destruct (trimStart_head s) as [E | (c & r & E & Hc)];
    rewrite E.
  - reflexivity.
  - rewrite (trimEnd_cons c r Hc). cbn [app trimStart]. rewrite Hc.
    change (c :: trimEnd r ++ slash) with ((c :: trimEnd r) ++ [0x2F]).
    now apply trimEnd_snoc.
Qed.

Section Keys.

Context {C : Collaborators}.

(** X10: the key [add] computes from a name is in normal form: computed
    again from the key, with the same options, it is the key itself.  So a
    stored key, passed back to [add] as a name, always meets itself. *)
Theorem entryName_idempotent (name : str) (options : Options) :
  entryName (entryName name options) options = entryName name options.
Proof.
  destruct (directory options) eqn:Hd.
  - destruct (entryName_directory name options Hd) as (Hno & Hyes & _).
    destruct (str_eq_dec (charAt (trim name) (len (trim name) - 1)) slash)
      as [E|E]; rewrite charAt_last_slash in E.
    + rewrite (Hyes E).
      destruct (entryName_directory (trim name) options Hd) as (_ & H & _).
      rewrite H; rewrite trim_idem; [reflexivity | exact E].
    + rewrite Hno by (intros prefix Hp; apply E; now exists prefix).
      destruct (entryName_directory (trim name ++ slash) options Hd)
        as (_ & H & _).
      rewrite H; rewrite trim_slash; [reflexivity | now exists (trim name)].
  - rewrite !(entryName_file _ _ Hd). apply trim_idem.
Qed.

End Keys.

(** ** The header on the sink and the header in the directory *)

(** Gathers the first [n + 1] blocks of a concatenation into one. *)
Ltac regroup_once :=
  match goal with
  | |- slice (?a ++ ?b ++ ?c) _ _ = _ => rewrite (app_assoc a b c)
  end.

Tactic Notation "regroup" integer(n) := do n regroup_once.

Section Headers.

Context {C : Collaborators}.

Lemma headerBytes_sizes options date crc csize usize fl el :
  slice (headerBytes options date crc csize usize fl el) 10 12
  = le_bytes 4 crc ++ le_bytes 4 csize ++ le_bytes 4 usize
  /\ slice (headerBytes options date crc csize usize fl el) 22 2
     = le_bytes 2 (Z.of_nat fl)
  /\ slice (headerBytes options date crc csize usize fl el) 24 2
     = le_bytes 2 (Z.of_nat el).
Proof.
  unfold headerBytes, versionBytes.
  destruct (hasPassword options), (isCompressed options);
    repeat split; reflexivity.
Qed.

(** What one call of the encoder that returns has put on the sink. *)
Lemma createFileEntry_returns now name reader cfg options (w w' : Writer)
    (fe : FileEntry.t) :
  createFileEntry now name reader cfg options w = (w', OK fe) ->
  exists filename comment processed,
    encodeUTF8 name = OK filename
    /\ encodeUTF8 (entryComment options) = OK comment
    /\ contentResult reader cfg options = OK processed
    /\ fe = encodedEntry now options filename comment processed
    /\ data w' = data w
                 ++ localHeader now options filename
                 ++ contentBytes reader cfg options
                 ++ footerBytes options processed.
Proof.
  rewrite createFileEntry_eq.
  destruct (encodeUTF8 name) as [filename|]; [|discriminate].
  destruct (encodeUTF8 _) as [comment|]; [|discriminate].
  rewrite processContent_sink.
  destruct (contentResult reader cfg options) as [processed|];
    [|discriminate].
  intros [= <- <-]. exists filename, comment, processed.
  repeat split; try reflexivity.
  cbn [Writer_writeUint8Array data]. now rewrite <- !app_assoc.
Qed.

(** X11: checksum, compressed length and original size are not in the
    local header: the header block that goes to the sink before the content
    has twelve zero bytes at 14.  The header the entry keeps for the central
    directory holds, at 10, the same twelve bytes as the footer holds after
    its signature, and [close] copies them to 16 of the entry's record. *)
Theorem sizes_follow_content now name reader cfg options (w w' : Writer)
    (fe : FileEntry.t) :
  createFileEntry now name reader cfg options w = (w', OK fe) ->
  exists header body footer,
    data w' = data w ++ header ++ body ++ footer
    /\ length footer = 16%nat
    /\ slice header 0 4 = [0x50; 0x4b; 0x03; 0x04]
    /\ slice header 14 12 = repeat 0 12
    /\ slice footer 4 12 = slice (FileEntry.headerArray fe) 10 12
    /\ slice (centralRecord fe) 16 12
       = slice (FileEntry.headerArray fe) 10 12.
Proof.
  intros Hrun.
  destruct (createFileEntry_returns _ _ _ _ _ _ _ _ Hrun)
    as (filename & comment & processed & _ & _ & _ & -> & Hd).
  exists (localHeader now options filename), (contentBytes reader cfg options),
    (footerBytes options processed).
  split; [exact Hd|].
  split; [unfold footerBytes; now rewrite !length_app, !le_bytes_length|].
  split; [reflexivity|].
  cbn [encodedEntry FileEntry.headerArray].
  destruct (headerBytes_sizes options (entryDate now options)
              (checksumField options processed)
              (compressedSizeField processed) (sizeField processed)
              (length filename) (length (entryExtraField options)))
    as (Hs & _).
  rewrite Hs. split; [|split].
  - unfold localHeader, headerBytes, versionBytes.
    destruct (hasPassword options), (isCompressed options); reflexivity.
  - reflexivity.
  - unfold centralRecord, encodedEntry, headerBytes, versionBytes.
    cbn [FileEntry.headerArray].
    destruct (hasPassword options), (isCompressed options); reflexivity.
Qed.

(** X12: the length fields agree with what is written.  The header of an
    encoded entry holds at 22 and 24 the lengths of its file name and of its
    extra field, as 16 bits in little-endian order; the header block on the
    sink is 30 bytes plus these two lengths; the entry's record in the
    central directory is 46 bytes plus the lengths of name, extra field and
    comment, declares the three lengths at 28, 30 and 32, and carries the
    name at 46. *)
Theorem lengths_are_declared now name reader cfg options (w w' : Writer)
    (fe : FileEntry.t) :
  createFileEntry now name reader cfg options w = (w', OK fe) ->
  slice (FileEntry.headerArray fe) 22 2
  = le_bytes 2 (len (FileEntry.filename fe))
  /\ slice (FileEntry.headerArray fe) 24 2
     = le_bytes 2 (len (FileEntry.extraField fe))
  /\ len (localHeader now options (FileEntry.filename fe))
     = 30 + len (FileEntry.filename fe) + len (FileEntry.extraField fe)
  /\ len (centralRecord fe)
     = 46 + len (FileEntry.filename fe) + len (FileEntry.extraField fe)
       + len (FileEntry.comment fe)
  /\ slice (centralRecord fe) 28 2 = le_bytes 2 (len (FileEntry.filename fe))
  /\ slice (centralRecord fe) 30 2
     = le_bytes 2 (len (FileEntry.extraField fe))
  /\ slice (centralRecord fe) 32 2 = le_bytes 2 (len (FileEntry.comment fe))
  /\ slice (centralRecord fe) 46 (length (FileEntry.filename fe))
     = FileEntry.filename fe.
Proof.
  intros Hrun.
  destruct (createFileEntry_returns _ _ _ _ _ _ _ _ Hrun)
    as (filename & comment & processed & _ & _ & _ & -> & _).
  cbn [encodedEntry FileEntry.headerArray FileEntry.filename
       FileEntry.extraField FileEntry.comment].
  set (h := headerBytes _ _ _ _ _ _ _).
  assert (Hh : length h = 26%nat) by apply headerBytes_length.
  destruct (headerBytes_sizes options (entryDate now options)
              (checksumField options processed)
              (compressedSizeField processed) (sizeField processed)
              (length filename) (length (entryExtraField options)))
    as (_ & H22 & H24).
  fold h in H22, H24. unfold len.
  split; [exact H22|]. split; [exact H24|].
  split.
  { pose proof (localHeader_length now options filename) as Hl.
    unfold len in Hl. rewrite Hl. lia. }
  split.
  { rewrite centralRecord_length by exact Hh.
    cbn [encodedEntry FileEntry.filename FileEntry.extraField
         FileEntry.comment]. lia. }
  unfold centralRecord.
  cbn [encodedEntry FileEntry.headerArray FileEntry.filename
       FileEntry.extraField FileEntry.comment FileEntry.directory
       FileEntry.offset]. fold h.
  assert (Hsplit : h = firstn 22 h ++ slice h 22 2 ++ slice h 24 2).
  { unfold slice. rewrite <- (firstn_skipn 22 h) at 1. f_equal.
    rewrite <- (firstn_skipn 2 (skipn 22 h)) at 1. f_equal.
    rewrite skipn_skipn. cbn [Nat.add].
    symmetry. apply firstn_all2. rewrite length_skipn. lia. }
  rewrite H22, H24 in Hsplit.
  assert (H22' : length (firstn 22 h) = 22%nat)
    by (rewrite length_firstn; lia).
  set (pre := firstn 22 h) in *. clearbody pre. rewrite Hsplit.
  unfold len.
  rewrite <- !app_assoc.
  repeat split.
  - regroup 2. apply slice_at; lens; lia.
  - regroup 3. apply slice_at; lens; lia.
  - regroup 4. apply slice_at; lens; lia.
  - regroup 8. apply slice_at; lens; lia.
Qed.

End Headers.

(** ** Offsets and the bytes on the sink *)

Lemma slice_app_l (a b : list Z) (off n : nat) :
  (off + n <= length a)%nat -> slice (a ++ b) off n = slice a off n.
Proof.
  intros H. unfold slice. rewrite skipn_app, firstn_app.
  rewrite length_skipn.
  replace (n - (length a - off))%nat with 0%nat by lia.
  cbn [firstn]. apply app_nil_r.
Qed.

Section SinkOffsets.

Context {C : Collaborators}.

Hypothesis honest : reportsWhatItWrites.

Lemma content_length reader cfg options processed :
  contentResult reader cfg options = OK processed ->
  compressedSizeField processed = len (contentBytes reader cfg options).
Proof.
  unfold contentResult, contentBytes, processContent.
  destruct reader as [r|]; [|now intros [= <-]].
  unfold bind, lift, ret.
  destruct (reader_init r) as [r'|]; [|discriminate].
  destruct (createCodec _ _) as [codec|]; [|discriminate].
  pose proof (honest codec r' 0 (reader_size r') cfg (onprogress options))
    as Hh.
  destruct (processData _ _ _ _ _ _) as [bytes [result|]]; [|discriminate].
  cbn [fst snd data Writer_writeUint8Array newUint8ArrayWriter app] in *.
  intros [= <-]. cbn [compressedSizeField]. now apply Hh.
Qed.

(** The entry a call encodes is as long as what it puts on the sink, which
    starts with the entry's header block. *)
Lemma entry_length_is_written now name reader cfg options fe :
  entryResult now name reader cfg options = OK fe ->
  FileEntry.length fe = len (entryBytes now name reader cfg options)
  /\ exists rest,
       entryBytes now name reader cfg options
       = ([0x50; 0x4b; 0x03; 0x04]
          ++ headerBytes options (entryDate now options) 0 0 0
               (length (FileEntry.filename fe))
               (length (entryExtraField options)))
         ++ FileEntry.filename fe ++ rest.
Proof.
  intros Hres. unfold entryResult, entryBytes in *.
  destruct (createFileEntry now name reader cfg options newUint8ArrayWriter)
    as [w' r] eqn:Hrun.
  cbn [fst snd] in *. subst r.
  destruct (createFileEntry_returns _ _ _ _ _ _ _ _ Hrun)
    as (filename & comment & processed & _ & _ & Hp & -> & ->).
  cbn [newUint8ArrayWriter data app encodedEntry FileEntry.length
       FileEntry.filename].
  split.
  - rewrite (content_length _ _ _ _ Hp). unfold len.
    rewrite !length_app.
    pose proof (localHeader_length now options filename) as Hl.
    pose proof (footerBytes_length options processed) as Hf.
    unfold len in Hl, Hf. lia.
  - eexists. unfold localHeader. rewrite <- !app_assoc. reflexivity.
Qed.

Lemma add_tracked start now name reader options (this this' : ZipWriter) :
  tracked start this ->
  add now name reader options this = (this', OK tt) ->
  tracked start this'.
Proof.
  intros (n & Ho & Hl & Hes) Hadd.
  destruct (add_returns _ _ _ _ _ _ Hadd) as (fe & _ & Hfe & ->).
  destruct (entry_length_is_written _ _ _ _ _ _ Hfe) as (Hlen & rest & Hb).
  destruct (prepared_fields options this) as (_ & _ & _ & Hd).
  set (eb := entryBytes _ _ _ _ _) in *.
  assert (Hhl : length ([0x50; 0x4b; 0x03; 0x04]
                        ++ headerBytes options (entryDate now options) 0 0 0
                             (length (FileEntry.filename fe))
                             (length (entryExtraField options))) = 30%nat)
    by (rewrite length_app, headerBytes_length; reflexivity).
  exists (n + length eb)%nat.
  cbn [offset writer files Writer_writeUint8Array data]. rewrite Hd.
  split; [rewrite Ho, Hlen; unfold len; lia|].
  split; [rewrite length_app; lia|].
  rewrite entries_snoc. apply Forall_app. split.
  - eapply Forall_impl; [|exact Hes].
    intros e ((p & Hp & Hsig & Hname) & (p' & Hp' & Hfit)).
    assert (p' = p) by (rewrite Hp in Hp'; injection Hp'; lia). subst p'.
    split.
    + exists p. split; [exact Hp|].
      rewrite !slice_app_l by lia. auto.
    + exists p. split; [exact Hp | lia].
  - constructor; [|constructor].
    cbn [FileEntry.set_offset FileEntry.offset FileEntry.filename].
    assert (Hfit : (30 + length (FileEntry.filename fe) <= length eb)%nat).
    { rewrite Hb, length_app, Hhl, length_app. lia. }
    split.
    + exists n. unfold headerAt.
      cbn [FileEntry.set_offset FileEntry.offset FileEntry.filename].
      split; [now rewrite Ho|]. rewrite Hb. split.
      * erewrite slice_app_r with (k := 0%nat) by lia.
        rewrite <- !app_assoc. reflexivity.
      * erewrite slice_app_r with (k := 30%nat) by lia.
        apply slice_at; [now rewrite Hhl | reflexivity].
    + exists n. split; [now rewrite Ho | lia].
Qed.

Lemma addAll_tracked start (calls : list AddCall) (this this' : ZipWriter) :
  tracked start this ->
  addAll calls this = (this', OK tt) ->
  tracked start this'.
Proof.
  revert this. induction calls as [|c calls IH]; intros this Ht Hrun.
  - now injection Hrun as <-.
  - cbn [addAll] in Hrun. unfold bind in Hrun.
    destruct (add _ _ _ _ this) as [this1 [[]|e]] eqn:Hadd;
      [|discriminate].
    exact (IH this1 (add_tracked _ _ _ _ _ _ _ Ht Hadd) Hrun).
Qed.

(** X13: with a pipeline that reports as its length what it wrote, after
    a sequence of [add] calls that all returned the running offset is the
    number of bytes the calls put on the sink, and the offset of every entry
    leads to that entry's own header block on the sink: the signature
    [50 4b 03 04] is there, and the entry's file name 30 bytes further.
    Positions count from where the sink stood when the writer was made. *)
Theorem offsets_lead_to_headers (w : Writer) (cfg : Config)
    (calls : list AddCall) (this : ZipWriter) :
  addAll calls (newZipWriter w cfg) = (this, OK tt) ->
  len (data (writer this)) = len (data w) + offset this
  /\ Forall (headerAt (data (writer this)) (length (data w)))
       (entries (files this)).
Proof.
  intros Hrun.
  assert (H0 : tracked (length (data w)) (newZipWriter w cfg)).
  { exists 0%nat. cbn. repeat split; [lia | constructor]. }
  destruct (addAll_tracked _ _ _ _ H0 Hrun) as (n & Ho & Hl & Hes).
  split; [unfold len; lia|].
  eapply Forall_impl; [|exact Hes]. now intros e [H _].
Qed.

End SinkOffsets.

Lemma StoreOnly_reports : reportsWhatItWrites (C := StoreOnly).
Proof.
  intros codec [bytes|written code] off size cfg progress result;
    cbn; [|discriminate].
  now intros [= <-].
Qed.

Lemma offsets_lead_to_headers_witness :
  len (data (writer twoFiles))
  = len (data newUint8ArrayWriter) + offset twoFiles
  /\ Forall (headerAt (data (writer twoFiles))
               (length (data newUint8ArrayWriter)))
       (entries (files twoFiles)).
Proof.
  apply (offsets_lead_to_headers (C := StoreOnly) StoreOnly_reports
           newUint8ArrayWriter noConfig twoCalls).
  vm_compute. reflexivity.
Defined.

(** ** Reading time and day back *)

Section ReadBack.

Context {C : Collaborators}.

(** X14: nothing of the timestamp is lost but the odd second.  For a
    date in the years 1980 to 2107, hour, minute, half the seconds, year,
    month and day are read back from the two 16-bit fields of the header by
    division: the hour is the time field over 2048, the minute the next six
    bits, and so on. *)
Theorem timestamp_reads_back now name reader cfg options (w w' : Writer)
    (fe : FileEntry.t) :
  validDate (entryDate now options) ->
  1980 <= getFullYear (entryDate now options) <= 2107 ->
  createFileEntry now name reader cfg options w = (w', OK fe) ->
  timeField fe / 2048 = getHours (entryDate now options)
  /\ (timeField fe / 32) mod 64 = getMinutes (entryDate now options)
  /\ timeField fe mod 32 = getSeconds (entryDate now options) / 2
  /\ dateField fe / 512 + 1980 = getFullYear (entryDate now options)
  /\ (dateField fe / 32) mod 16 = getMonth (entryDate now options) + 1
  /\ dateField fe mod 32 = getDate (entryDate now options).
Proof.
  intros Hv Hy Hrun.
  destruct (createFileEntry_returns _ _ _ _ _ _ _ _ Hrun)
    as (filename & comment & processed & _ & _ & _ & -> & _).
  unfold timeField, dateField.
  cbn [encodedEntry FileEntry.headerArray].
  destruct (dosTime_spec _ Hv) as [Et Bt].
  destruct (dosDate_spec _ Hv) as [Ed Bd]. specialize (Bd Hy).
  unfold headerBytes. rewrite Et, Ed.
  rewrite (slice_at (versionBytes options) (le_bytes 2 (specTime _)) _ 6 2)
    by (rewrite ?versionBytes_length; reflexivity).
  rewrite (app_assoc (versionBytes options)).
  rewrite (slice_at _ (le_bytes 2 (specDate _)) _ 8 2)
    by (rewrite ?length_app, ?versionBytes_length; reflexivity).
  rewrite !le_value_le_bytes_small by assumption.
  rewrite (specTime_sum _ Hv), (specDate_sum _ Hv).
  destruct Hv as (Hh & Hm & Hs & Hmo & Hd & _).
  set (s2 := getSeconds (entryDate now options) / 2).
  assert (0 <= s2 <= 29) by (unfold s2; Z.div_mod_to_equations; lia).
  clearbody s2.
  repeat split; Z.div_mod_to_equations; lia.
Qed.

End ReadBack.

Lemma timestamp_reads_back_witness :
  timeField juneEntry / 2048 = getHours june15
  /\ (timeField juneEntry / 32) mod 64 = getMinutes june15
  /\ timeField juneEntry mod 32 = getSeconds june15 / 2
  /\ dateField juneEntry / 512 + 1980 = getFullYear june15
  /\ (dateField juneEntry / 32) mod 16 = getMonth june15 + 1
  /\ dateField juneEntry mod 32 = getDate june15.
Proof.
  apply (timestamp_reads_back (C := StoreOnly) june15 a_txt None noConfig
           plainOptions newUint8ArrayWriter
           (fst (createFileEntry june15 a_txt None noConfig plainOptions
                   newUint8ArrayWriter))).
  - unfold validDate. simpl. lia.
  - simpl. lia.
  - vm_compute. reflexivity.
Defined.

(** ** Calls that throw while the entry is encoded *)

Section Throws.

Context {C : Collaborators}.

(** X15: a new name that cannot be encoded, or a comment that cannot.
    [add] throws the [URIError] before the encoder writes anything: the sink
    holds the bytes it held and the running offset has not moved, but the
    name stays in the map, bound to [null]. *)
Theorem add_unencodable now name reader options (this : ZipWriter)
    (e : error) :
  Map_has (files this) (entryName name options) = false ->
  encodeUTF8 (entryName name options) = Throw e
  \/ encodeUTF8 (entryComment options) = Throw e ->
  snd (add now name reader options this) = Throw URIError
  /\ data (writer (fst (add now name reader options this)))
     = data (writer this)
  /\ offset (fst (add now name reader options this)) = offset this
  /\ files (fst (add now name reader options this))
     = files this ++ [(entryName name options, None)].
Proof.
  intros Hnew He. rewrite add_fresh by exact Hnew. cbv zeta.
  destruct (prepared_fields options this) as (_ & _ & _ & Hd).
  assert (Hres : entryResult now (entryName name options) reader
                   (config this) options = Throw URIError
                 /\ entryBytes now (entryName name options) reader
                      (config this) options = []).
  { unfold entryResult, entryBytes. rewrite createFileEntry_eq.
    destruct (encodeUTF8 (entryName name options)) as [filename|e1] eqn:E1.
    - destruct He as [He|He]; [discriminate|]. rewrite He.
      rewrite (encodeUTF8_error _ _ He).
      auto.
    - rewrite (encodeUTF8_error _ _ E1).
      auto. }
  destruct Hres as [-> Hb]. cbn [fst snd writer files offset].
  split; [reflexivity|]. split; [|auto].
  destruct (bufferedWrite options); [reflexivity|].
  cbn [Writer_writeUint8Array data]. now rewrite Hb, app_nil_r, Hd.
Qed.

(** X16: without [bufferedWrite], when the content source, the codec or
    the pipeline throws, the header block and whatever the pipeline had
    appended are on the shared sink for good, and the running offset has not
    moved: from then on the running offset is behind the sink. *)
Theorem unbuffered_failure_leaves_bytes now name reader options
    (this : ZipWriter) (filename comment : list Z) (e : error) :
  bufferedWrite options = false ->
  Map_has (files this) (entryName name options) = false ->
  encodeUTF8 (entryName name options) = OK filename ->
  encodeUTF8 (entryComment options) = OK comment ->
  contentResult reader (config this) options = Throw e ->
  snd (add now name reader options this) = Throw e
  /\ offset (fst (add now name reader options this)) = offset this
  /\ data (writer (fst (add now name reader options this)))
     = data (writer this)
       ++ localHeader now options filename
       ++ contentBytes reader (config this) options
  /\ (len (data (writer this)) + 30
      <= len (data (writer (fst (add now name reader options this))))).
Proof.
  intros Hb Hnew Hf Hc Hp. rewrite add_fresh by exact Hnew. cbv zeta.
  destruct (prepared_fields options this) as (_ & _ & _ & Hd).
  assert (Hres : entryResult now (entryName name options) reader
                   (config this) options = Throw e
                 /\ entryBytes now (entryName name options) reader
                      (config this) options
                    = localHeader now options filename
                      ++ contentBytes reader (config this) options).
  { unfold entryResult, entryBytes.
    rewrite createFileEntry_eq, Hf, Hc, processContent_sink, Hp.
    cbn [fst snd Writer_writeUint8Array data newUint8ArrayWriter app].
    auto. }
  destruct Hres as [-> Hbytes]. rewrite Hb, Hbytes.
  cbn [fst snd writer offset Writer_writeUint8Array data]. rewrite Hd.
  repeat split. unfold len. rewrite !length_app.
  pose proof (localHeader_length now options filename) as Hl.
  unfold len in Hl. lia.
Qed.

End Throws.

Lemma add_unencodable_witness :
  snd (add june15 brokenName None plainOptions archiveWithFile)
  = Throw URIError
  /\ data (writer (fst (add june15 brokenName None plainOptions
                          archiveWithFile)))
     = data (writer archiveWithFile)
  /\ offset (fst (add june15 brokenName None plainOptions archiveWithFile))
     = offset archiveWithFile
  /\ files (fst (add june15 brokenName None plainOptions archiveWithFile))
     = files archiveWithFile ++ [(entryName brokenName plainOptions, None)].
Proof.
  apply (add_unencodable (C := StoreOnly) june15 brokenName None plainOptions
           archiveWithFile URIError).
  - vm_compute. reflexivity.
  - left. vm_compute. reflexivity.
Defined.

Lemma unbuffered_failure_leaves_bytes_witness :
  snd (add june15 secret (Some (Broken [7] 1)) plainOptions archiveWithFile)
  = Throw (CollaboratorError 1)
  /\ offset (fst (add june15 secret (Some (Broken [7] 1)) plainOptions
                    archiveWithFile))
     = offset archiveWithFile
  /\ data (writer (fst (add june15 secret (Some (Broken [7] 1)) plainOptions
                          archiveWithFile)))
     = data (writer archiveWithFile)
       ++ localHeader june15 plainOptions secret
       ++ contentBytes (Some (Broken [7] 1)) (config archiveWithFile)
            plainOptions
  /\ (len (data (writer archiveWithFile)) + 30
      <= len (data (writer (fst (add june15 secret (Some (Broken [7] 1))
                                   plainOptions archiveWithFile))))).
Proof.
  apply (unbuffered_failure_leaves_bytes (C := StoreOnly) june15 secret
           (Some (Broken [7] 1)) plainOptions archiveWithFile secret []).
  - reflexivity.
  - vm_compute. reflexivity.
  - vm_compute. reflexivity.
  - vm_compute. reflexivity.
  - vm_compute. reflexivity.
Defined.

(** ** Version, flags and method *)

Section Method.

Context {C : Collaborators}.

(** X17: with a non-empty password the header starts with
    [33 00 09 00 63 00], version 51, flags 9 and method 99, whatever the
    level; [options.version] has no effect on what is written nor on the
    record. *)
Theorem encrypted_header_start now name reader cfg options (w w' : Writer)
    (fe : FileEntry.t) :
  hasPassword options = true ->
  createFileEntry now name reader cfg options w = (w', OK fe) ->
  slice (FileEntry.headerArray fe) 0 6 = [0x33; 0x00; 0x09; 0x00; 0x63; 0x00]
  /\ forall v,
       createFileEntry now name reader cfg (withVersion v options) w
       = (w', OK fe).
Proof.
  intros Hp Hrun. split.
  - destruct (createFileEntry_returns _ _ _ _ _ _ _ _ Hrun)
      as (filename & comment & processed & _ & _ & _ & -> & _).
    cbn [encodedEntry FileEntry.headerArray].
    unfold headerBytes, versionBytes. rewrite Hp. reflexivity.
  - intros v. rewrite <- Hrun. rewrite !createFileEntry_eq.
    change (entryComment (withVersion v options))
      with (entryComment options).
    assert (Hv : versionBytes (withVersion v options) = versionBytes options).
    { unfold versionBytes.
      change (hasPassword (withVersion v options))
        with (hasPassword options).
      now rewrite Hp. }
    unfold localHeader, encodedEntry, headerBytes. rewrite Hv. reflexivity.
Qed.

(** X18: without a password the header starts with the version, 20
    unless [options.version] is a number other than 0, which is stored
    reduced to a byte, then the flags [08 08], then the method: 8 unless the
    level is 0 or the entry is a directory, in which case it is 0. *)
Theorem plain_header_start now name reader cfg options (w w' : Writer)
    (fe : FileEntry.t) :
  hasPassword options = false ->
  createFileEntry now name reader cfg options w = (w', OK fe) ->
  slice (FileEntry.headerArray fe) 0 6
  = [match version options with
     | Some v => if v =? 0 then 20 else v mod 256
     | None => 20
     end; 0x00; 0x08; 0x08;
     if isCompressed options then 0x08 else 0x00; 0x00]
  /\ (directory options = true \/ level options = Some 0 ->
      slice (FileEntry.headerArray fe) 4 2 = [0x00; 0x00])
  /\ (directory options = false -> level options <> Some 0 ->
      slice (FileEntry.headerArray fe) 4 2 = [0x08; 0x00]).
Proof.
  intros Hp Hrun.
  destruct (createFileEntry_returns _ _ _ _ _ _ _ _ Hrun)
    as (filename & comment & processed & _ & _ & _ & -> & _).
  cbn [encodedEntry FileEntry.headerArray].
  unfold headerBytes, versionBytes. rewrite Hp.
  split; [|split].
  - destruct (isCompressed options); reflexivity.
  - intros H. assert (Hc : isCompressed options = false).
    { unfold isCompressed. destruct H as [-> | ->];
        [apply andb_false_r | reflexivity]. }
    rewrite Hc. reflexivity.
  - intros Hd Hl. assert (Hc : isCompressed options = true).
    { unfold isCompressed. rewrite Hd.
      destruct (level options) as [l|]; [|reflexivity].
      destruct (Z.eqb_spec l 0); [subst; contradiction | reflexivity]. }
    rewrite Hc. reflexivity.
Qed.

End Method.

Lemma encrypted_header_start_witness :
  slice (FileEntry.headerArray secretEntry) 0 6
  = [0x33; 0x00; 0x09; 0x00; 0x63; 0x00]
  /\ forall v,
       createFileEntry june15 a_txt (Some (Content [1; 2; 3])) noConfig
         (withVersion v secretOptions) newUint8ArrayWriter
       = (fst (createFileEntry june15 a_txt (Some (Content [1; 2; 3]))
                 noConfig secretOptions newUint8ArrayWriter),
          OK secretEntry).
Proof.
  apply (encrypted_header_start (C := StoreOnly) june15 a_txt
           (Some (Content [1; 2; 3])) noConfig secretOptions
           newUint8ArrayWriter).
  - reflexivity.
  - vm_compute. reflexivity.
Defined.

Lemma plain_header_start_witness :
  slice (FileEntry.headerArray juneEntry) 0 6
  = [match version plainOptions with
     | Some v => if v =? 0 then 20 else v mod 256
     | None => 20
     end; 0x00; 0x08; 0x08;
     if isCompressed plainOptions then 0x08 else 0x00; 0x00]
  /\ (directory plainOptions = true \/ level plainOptions = Some 0 ->
      slice (FileEntry.headerArray juneEntry) 4 2 = [0x00; 0x00])
  /\ (directory plainOptions = false -> level plainOptions <> Some 0 ->
      slice (FileEntry.headerArray juneEntry) 4 2 = [0x08; 0x00]).
Proof.
  apply (plain_header_start (C := StoreOnly) june15 a_txt None noConfig
           plainOptions newUint8ArrayWriter
           (fst (createFileEntry june15 a_txt None noConfig plainOptions
                   newUint8ArrayWriter))).
  - reflexivity.
  - vm_compute. reflexivity.
Defined.

(** ** The size and the place of the directory *)

Section DirectorySize.

Context {C : Collaborators}.

Lemma recordsLength_sum (this : ZipWriter) :
  complete (files this) ->
  recordsLength this = list_sum (map recordLength (entries (files this))).
Proof.
  unfold recordsLength. induction (files this) as [|[k v] fs IH]; intros H.
  - reflexivity.
  - apply complete_cons in H. destruct H as [(file & -> & Hh) Hfs].
    cbn [entries flat_map map list_sum].
    rewrite length_app, (centralRecord_length file Hh), (IH Hfs).
    reflexivity.
Qed.

Lemma close_returns (this this' : ZipWriter) (comment : option (list Z))
    (bytes : list Z) :
  complete (files this) ->
  close comment this = (this', OK bytes) ->
  exists cl,
    commentLength comment = OK cl
    /\ bytes = data (writer this)
               ++ directoryBytes this cl ++ commentBytes comment
    /\ data (writer this') = bytes.
Proof.
  intros Hc Hrun. rewrite close_eq in Hrun by exact Hc.
  destruct (commentLength comment) as [cl|]; [|discriminate].
  injection Hrun as <- <-. exists cl. auto.
Qed.

Lemma returned_trailer_field (this : ZipWriter) (cl : Z) (tail : list Z)
    (k n : nat) :
  (k + n <= 22)%nat ->
  slice (data (writer this) ++ directoryBytes this cl ++ tail)
    (length (data (writer this)) + recordsLength this + k) n
  = slice (directoryBytes this cl) (recordsLength this + k) n.
Proof.
  intros H.
  destruct (directoryBytes_fields this cl) as (_ & _ & _ & _ & _ & _ & Hl).
  rewrite (slice_app_r _ _ _ (recordsLength this + k)) by lia.
  apply slice_app_l. lia.
Qed.

(** X19: when [close] returns, on an archive whose entries are all
    encoded, what it returns is what the sink holds; it is longer than what
    the sink held by the records, 46 bytes plus the lengths of name, comment
    and extra field for each entry, the 22 bytes of the trailer and the
    comment.  After the records comes the signature [50 4b 05 06]; 12 bytes
    further the trailer declares the total length of the records, and 20
    bytes further the length of the comment, the latter reduced to 16
    bits. *)
Theorem close_sizes (this this' : ZipWriter) (comment : option (list Z))
    (bytes : list Z) :
  complete (files this) ->
  close comment this = (this', OK bytes) ->
  data (writer this') = bytes
  /\ recordsLength this = list_sum (map recordLength (entries (files this)))
  /\ length bytes
     = (length (data (writer this)) + recordsLength this + 22
        + length (commentBytes comment))%nat
  /\ slice bytes (length (data (writer this)) + recordsLength this) 4
     = [0x50; 0x4b; 0x05; 0x06]
  /\ slice bytes (length (data (writer this)) + recordsLength this + 12) 4
     = le_bytes 4 (Z.of_nat (recordsLength this))
  /\ slice bytes (length (data (writer this)) + recordsLength this + 20) 2
     = le_bytes 2 (len (commentBytes comment)).
Proof.
  intros Hc Hrun.
  destruct (close_returns _ _ _ _ Hc Hrun) as (cl & Hcl & -> & Hd).
  destruct (directoryBytes_fields this cl)
    as (Hsig & _ & _ & Hsize & _ & Hcomment & Hl).
  split; [exact Hd|]. split; [exact (recordsLength_sum this Hc)|].
  split; [rewrite !length_app, Hl; lia|].
  split.
  { rewrite <- (Nat.add_0_r (_ + recordsLength this)).
    rewrite returned_trailer_field by lia.
    now rewrite Nat.add_0_r. }
  split; [now rewrite returned_trailer_field by lia|].
  rewrite returned_trailer_field by lia. rewrite Hcomment. f_equal.
  unfold commentLength in Hcl. unfold commentBytes.
  destruct comment as [[|b c]|]; try (now injection Hcl as <-).
  destruct (len (b :: c) <=? 65536); [|discriminate].
  now injection Hcl as <-.
Qed.

(** X20: [close] on a writer to which nothing was added, with no comment
    or with an empty one, appends the 22 bytes of an empty archive: the
    signature of the trailer and eighteen zeros. *)
Theorem close_empty_archive (w : Writer) (cfg : Config) :
  snd (close None (newZipWriter w cfg))
  = OK (data w ++ [0x50; 0x4b; 0x05; 0x06] ++ repeat 0 18)
  /\ snd (close (Some []) (newZipWriter w cfg))
     = OK (data w ++ [0x50; 0x4b; 0x05; 0x06] ++ repeat 0 18).
Proof.
  split; rewrite close_eq by constructor; cbn [commentLength snd];
    unfold commentBytes; rewrite app_nil_r; reflexivity.
Qed.

Hypothesis honest : reportsWhatItWrites.

(** X21: with a pipeline that reports as its length what it wrote, the
    archive [close] returns after a sequence of [add] calls that all
    returned has its central directory where the trailer says: counting from
    where the sink stood when the writer was made, the running offset leads
    to the first record, whose signature is [50 4b 01 02], when there is an
    entry, and the running offset plus the length of the records leads to
    the signature of the trailer. *)
Theorem directory_is_where_declared (w : Writer) (cfg : Config)
    (calls : list AddCall) (this this' : ZipWriter)
    (comment : option (list Z)) (bytes : list Z) :
  addAll calls (newZipWriter w cfg) = (this, OK tt) ->
  close comment this = (this', OK bytes) ->
  0 <= offset this
  /\ slice bytes (length (data w) + Z.to_nat (offset this)
                  + recordsLength this) 4
     = [0x50; 0x4b; 0x05; 0x06]
  /\ (calls <> [] ->
      slice bytes (length (data w) + Z.to_nat (offset this)) 4
      = [0x50; 0x4b; 0x01; 0x02]).
Proof.
  intros Hrun Hclose.
  destruct (addAll_consistent calls _ _ (newZipWriter_consistent w cfg) Hrun)
    as ([[Hc _] _] & _ & _ & es & Hes & Hall).
  cbn [newZipWriter files entries app] in Hes.
  assert (H0 : tracked (length (data w)) (newZipWriter w cfg)).
  { exists 0%nat. cbn. repeat split; [lia | constructor]. }
  destruct (addAll_tracked honest _ _ _ _ H0 Hrun) as (n & Ho & Hl & _).
  destruct (close_returns _ _ _ _ Hc Hclose) as (cl & Hcl & -> & _).
  rewrite Ho, Nat2Z.id, <- Hl.
  split; [lia|]. split.
  - destruct (directoryBytes_fields this cl) as (Hsig & _).
    rewrite <- (Nat.add_0_r (_ + recordsLength this)).
    rewrite returned_trailer_field by lia.
    now rewrite Nat.add_0_r.
  - intros Hne. rewrite (slice_app_r _ _ _ 0) by lia.
    unfold directoryBytes. rewrite Hes.
    destruct Hall as [|c e calls' es' _ _]; [contradiction|].
    cbn [flat_map]. unfold centralRecord. rewrite <- !app_assoc.
    reflexivity.
Qed.

End DirectorySize.

Lemma close_sizes_witness :
  data (writer (fst (close shortComment twoFiles)))
  = data (writer twoFiles) ++ directoryBytes twoFiles 2 ++ [1; 2]
  /\ recordsLength twoFiles
     = list_sum (map recordLength (entries (files twoFiles)))
  /\ length (data (writer twoFiles) ++ directoryBytes twoFiles 2 ++ [1; 2])
     = (length (data (writer twoFiles)) + recordsLength twoFiles + 22
        + length (commentBytes shortComment))%nat
  /\ slice (data (writer twoFiles) ++ directoryBytes twoFiles 2 ++ [1; 2])
       (length (data (writer twoFiles)) + recordsLength twoFiles) 4
     = [0x50; 0x4b; 0x05; 0x06]
  /\ slice (data (writer twoFiles) ++ directoryBytes twoFiles 2 ++ [1; 2])
       (length (data (writer twoFiles)) + recordsLength twoFiles + 12) 4
     = le_bytes 4 (Z.of_nat (recordsLength twoFiles))
  /\ slice (data (writer twoFiles) ++ directoryBytes twoFiles 2 ++ [1; 2])
       (length (data (writer twoFiles)) + recordsLength twoFiles + 20) 2
     = le_bytes 2 (len (commentBytes shortComment)).
Proof.
  apply (close_sizes (C := StoreOnly) twoFiles).
  - set (fs := files twoFiles). vm_compute in fs. subst fs.
    repeat (constructor; [eexists; split; reflexivity|]). constructor.
  - vm_compute. reflexivity.
Defined.

Lemma directory_is_where_declared_witness :
  0 <= offset twoFiles
  /\ slice (data (writer twoFiles) ++ directoryBytes twoFiles 2 ++ [1; 2])
       (length (data newUint8ArrayWriter) + Z.to_nat (offset twoFiles)
        + recordsLength twoFiles) 4
     = [0x50; 0x4b; 0x05; 0x06]
  /\ (twoCalls <> [] ->
      slice (data (writer twoFiles) ++ directoryBytes twoFiles 2 ++ [1; 2])
        (length (data newUint8ArrayWriter) + Z.to_nat (offset twoFiles)) 4
      = [0x50; 0x4b; 0x01; 0x02]).
Proof.
  apply (directory_is_where_declared (C := StoreOnly) StoreOnly_reports
           newUint8ArrayWriter noConfig twoCalls twoFiles
           (fst (close shortComment twoFiles)) shortComment).
  - vm_compute. reflexivity.
  - vm_compute. reflexivity.
Defined.

(** ** The offset in the record *)

Section RecordOffset.

Context {C : Collaborators}.

(** X22: when [add] returns, the new entry is the last of the map, and
    its record for the central directory declares at 42, as 32 bits in
    little-endian order, the running offset the call found; the records of
    the entries that were there are unchanged. *)
Theorem record_declares_offset now name reader options
    (this this' : ZipWriter) :
  add now name reader options this = (this', OK tt) ->
  exists e,
    entries (files this') = entries (files this) ++ [e]
    /\ slice (centralRecord e) 42 4 = le_bytes 4 (offset this)
    /\ flat_map centralRecord (entries (files this'))
       = flat_map centralRecord (entries (files this)) ++ centralRecord e.
Proof.
  intros Hadd.
  destruct (add_returns _ _ _ _ _ _ Hadd) as (fe & _ & Hfe & ->).
  pose proof (entryResult_header _ _ _ _ _ _ Hfe) as Hh.
  exists (FileEntry.set_offset fe (offset this)). cbn [files].
  rewrite entries_snoc. split; [reflexivity|]. split.
  - unfold centralRecord.
    cbn [FileEntry.set_offset FileEntry.headerArray FileEntry.comment
         FileEntry.directory FileEntry.offset FileEntry.filename
         FileEntry.extraField].
    regroup 5. apply slice_at; lens; rewrite ?Hh; reflexivity.
  - rewrite flat_map_app. cbn [flat_map]. now rewrite app_nil_r.
Qed.

End RecordOffset.

Lemma record_declares_offset_witness :
  exists e,
    entries (files (fst (add june15 secret None plainOptions
                           archiveWithFile)))
    = entries (files archiveWithFile) ++ [e]
    /\ slice (centralRecord e) 42 4 = le_bytes 4 (offset archiveWithFile)
    /\ flat_map centralRecord
         (entries (files (fst (add june15 secret None plainOptions
                                 archiveWithFile))))
       = flat_map centralRecord (entries (files archiveWithFile))
         ++ centralRecord e.
Proof.
  apply (record_declares_offset (C := StoreOnly) june15 secret None
           plainOptions archiveWithFile).
  vm_compute. reflexivity.
Defined.

Lemma sizes_follow_content_witness :
  exists header body footer,
    data (fst (createFileEntry (C := StoreOnly) june15 a_txt
                 (Some (Content [1; 2; 3])) noConfig secretOptions
                 newUint8ArrayWriter))
    = data newUint8ArrayWriter ++ header ++ body ++ footer
    /\ length footer = 16%nat
    /\ slice header 0 4 = [0x50; 0x4b; 0x03; 0x04]
    /\ slice header 14 12 = repeat 0 12
    /\ slice footer 4 12 = slice (FileEntry.headerArray secretEntry) 10 12
    /\ slice (centralRecord secretEntry) 16 12
       = slice (FileEntry.headerArray secretEntry) 10 12.
Proof.
  apply (sizes_follow_content (C := StoreOnly) june15 a_txt
           (Some (Content [1; 2; 3])) noConfig secretOptions
           newUint8ArrayWriter).
  vm_compute. reflexivity.
Defined.

Lemma lengths_are_declared_witness :
  slice (FileEntry.headerArray secretEntry) 22 2
  = le_bytes 2 (len (FileEntry.filename secretEntry))
  /\ slice (FileEntry.headerArray secretEntry) 24 2
     = le_bytes 2 (len (FileEntry.extraField secretEntry))
  /\ len (localHeader june15 secretOptions (FileEntry.filename secretEntry))
     = 30 + len (FileEntry.filename secretEntry)
       + len (FileEntry.extraField secretEntry)
  /\ len (centralRecord secretEntry)
     = 46 + len (FileEntry.filename secretEntry)
       + len (FileEntry.extraField secretEntry)
       + len (FileEntry.comment secretEntry)
  /\ slice (centralRecord secretEntry) 28 2
     = le_bytes 2 (len (FileEntry.filename secretEntry))
  /\ slice (centralRecord secretEntry) 30 2
     = le_bytes 2 (len (FileEntry.extraField secretEntry))
  /\ slice (centralRecord secretEntry) 32 2
     = le_bytes 2 (len (FileEntry.comment secretEntry))
  /\ slice (centralRecord secretEntry) 46
       (length (FileEntry.filename secretEntry))
     = FileEntry.filename secretEntry.
Proof.
  apply (lengths_are_declared (C := StoreOnly) june15 a_txt
           (Some (Content [1; 2; 3])) noConfig secretOptions
           newUint8ArrayWriter
           (fst (createFileEntry (C := StoreOnly) june15 a_txt
                   (Some (Content [1; 2; 3])) noConfig secretOptions
                   newUint8ArrayWriter))).
  vm_compute. reflexivity.
Defined.
